(** * Organization deletion (admin handler) and the organizations migration

    A shallow embedding of
    - packages/trpc/server/routers/viewer/organizations/adminDelete.handler.ts
    - packages/prisma/migrations/20230518173925_organizations/migration.sql

    The handler is a sequence of awaited calls to collaborators (the data
    store and the domain provider).  It is modelled in a state-and-error
    monad over a [World]: the store's tables, the provider's registered
    domains and the log of calls issued so far. *)

From Stdlib Require Import Ascii String.
From stdpp Require Import base option list gmap strings pretty.

Open Scope Z_scope.
Open Scope string_scope.
Open Scope list_scope.

(** ** JavaScript values the handler manipulates *)

(** Truthiness of a [string | null]: [null] and the empty string are falsy. *)
Definition truthy (s : option string) : bool :=
  match s with
  | Some EmptyString => false
  | Some _ => true
  | None => false
  end.

(** [s || ""] on a [string | null]. *)
Definition or_empty (s : option string) : string :=
  match s with
  | Some v => if truthy s then v else ""
  | None => ""
  end.

(** [s ?? ""] on a [string | null]. *)
Definition nullish_empty (s : option string) : string :=
  match s with
  | Some v => v
  | None => ""
  end.

(** Interpolation of an integer [number] in a template literal: the decimal
    numeral, with a leading minus sign for negative values (the ids of the
    store are integers far below the magnitude at which JavaScript switches
    to exponent notation). *)
Definition number_to_string (n : Z) : string := pretty n.

(** ** JSON column values *)

#[warnings="-register-all"]
Inductive Json :=
| JNull
| JBool (b : bool)
| JNumber (n : Z)
| JString (s : string)
| JArray (xs : list Json)
| JObject (fields : list (string * Json)).

Fixpoint json_field (k : string) (fields : list (string * Json)) : option Json :=
  match fields with
  | [] => None
  | (k', v) :: rest => if decide (k = k') then Some v else json_field k rest
  end.

(** The value found by following a path of object keys. *)
Fixpoint json_path (path : list string) (j : Json) : option Json :=
  match path with
  | [] => Some j
  | k :: path' =>
      match j with
      | JObject fields =>
          match json_field k fields with
          | Some v => json_path path' v
          | None => None
          end
      | _ => None
      end
  end.

(** The filter [{ path: p, equals: true }] on a nullable JSON column. *)
Definition json_path_equals_true (path : list string) (col : option Json) : bool :=
  match col with
  | Some j =>
      match json_path path j with
      | Some (JBool true) => true
      | _ => false
      end
  | None => false
  end.

(** ** The store *)

(** A row of table "Team", keyed by its id. *)
Record Team := mkTeam {
  name : string;
  slug : option string;
  metadata : option Json;
  parentId : option Z
}.

(** A row of table "users", keyed by its id. *)
Record users_row := mkUsersRow {
  users_username : option string;
  users_organizationId : option Z
}.

Inductive MembershipRole := MEMBER | ADMIN | OWNER.

Record Membership := mkMembership {
  teamId : Z;
  userId : Z;
  accepted : bool;
  role : MembershipRole
}.

Record Store := mkStore {
  teams : gmap Z Team;
  users : gmap Z users_row;
  memberships : list Membership
}.

(** The user object as the handler's [renameUsers] reads it. *)
Record User := mkUser {
  id : Z;
  username : option string
}.

Record Member := mkMember { user : User }.

(** The result of [team.findUnique] with [include: { members: { select: { user: true } } }]. *)
Record FoundOrg := mkFoundOrg {
  team : Team;
  members : list Member
}.

Definition isOrganization (t : Team) : bool :=
  json_path_equals_true ["isOrganization"] (metadata t).

(** The membership rows of a team joined with their users, in the order of
    the store's membership list.  A membership row refers to a user row by
    foreign key; a row whose user is missing yields no member. *)
Definition team_members (s : Store) (tid : Z) : list Member :=
  omap (λ m : Membership,
          if decide (teamId m = tid) then
            match users s !! userId m with
            | Some r => Some (mkMember (mkUser (userId m) (users_username r)))
            | None => None
            end
          else None)
       (memberships s).

(** [team.findUnique] with [where: { id, metadata: { path: ["isOrganization"],
    equals: true } }] (handler, lines 17-32). *)
Definition team_findUnique (s : Store) (tid : Z) : option FoundOrg :=
  match teams s !! tid with
  | Some t => if isOrganization t then Some (mkFoundOrg t (team_members s tid)) else None
  | None => None
  end.

Definition set_username (v : option string) (r : users_row) : users_row :=
  mkUsersRow v (users_organizationId r).

(** The write of [user.update({ where: { id }, data: { username } })]. *)
Definition store_user_update (uid : Z) (v : string) (s : Store) : Store :=
  mkStore (teams s) (alter (set_username (Some v)) uid (users s)) (memberships s).

(** *** Deleting a team row

    The migration declares [Team_parentId_fkey ... ON DELETE CASCADE] and
    [users_organizationId_fkey ... ON DELETE SET NULL]: deleting a team
    deletes the teams below it and clears the affiliation of its users. *)

Definition parent_in (S : gset Z) (t : Team) : bool :=
  match parentId t with
  | Some p => bool_decide (p ∈ S)
  | None => false
  end.

Definition child_teams (ts : gmap Z Team) (S : gset Z) : gset Z :=
  dom (filter (λ kv : Z * Team, parent_in S kv.2) ts).

Fixpoint cascade (fuel : nat) (ts : gmap Z Team) (S : gset Z) : gset Z :=
  match fuel with
  | O => S
  | Datatypes.S n => cascade n ts (S ∪ child_teams ts S)
  end.

(** The team rows removed by deleting team [tid]. *)
Definition deleted_teams (ts : gmap Z Team) (tid : Z) : gset Z :=
  cascade (size ts) ts {[tid]}.

Definition clear_organization (D : gset Z) (r : users_row) : users_row :=
  match users_organizationId r with
  | Some o => if bool_decide (o ∈ D) then mkUsersRow (users_username r) None else r
  | None => r
  end.

(** Modelled from the spec: the foreign key of Membership to Team is declared
    outside the migration at hand; the spec says that Membership rows are
    removed as a consequence of Team deletion (cascade, delegated to the
    store). *)
Definition cascade_memberships (D : gset Z) (ms : list Membership) : list Membership :=
  filter (λ m : Membership, teamId m ∉ D) ms.

(** The write of [team.delete({ where: { id } })]. *)
Definition store_team_delete (tid : Z) (s : Store) : Store :=
  let D := deleted_teams (teams s) tid in
  mkStore (filter (λ kv : Z * Team, kv.1 ∉ D) (teams s))
          (clear_organization D <$> users s)
          (cascade_memberships D (memberships s)).

(** ** Collaborator calls, errors and the world *)

(** The mutating calls the handler issues. *)
Inductive Call :=
| DeleteDomain (slug : string)
| UserUpdate (uid : Z) (new_username : string)
| TeamDelete (tid : Z).

Inductive Error :=
| TRPCError (code : string) (message : string)
| RecordNotFound (c : Call)
| CallFailed (c : Call).

Record World := mkWorld {
  store : Store;
  domains : gset string;
  trace : list Call
}.

Definition log (c : Call) (w : World) : World :=
  mkWorld (store w) (domains w) (trace w ++ [c]).

Definition with_store (f : Store → Store) (w : World) : World :=
  mkWorld (f (store w)) (domains w) (trace w).

Definition with_domains (f : gset string → gset string) (w : World) : World :=
  mkWorld (store w) (f (domains w)) (trace w).

(** ** The promise monad: a computation either resolves or rejects *)

Inductive Outcome (A : Type) :=
| Resolved (a : A)
| Rejected (e : Error).
Arguments Resolved {A} a.
Arguments Rejected {A} e.

Definition Promise (A : Type) : Type := World → Outcome A * World.

Definition resolve {A} (a : A) : Promise A := λ w, (Resolved a, w).
Definition throw {A} (e : Error) : Promise A := λ w, (Rejected e, w).

Definition and_then {A B} (p : Promise A) (k : A → Promise B) : Promise B :=
  λ w, match p w with
       | (Resolved a, w') => k a w'
       | (Rejected e, w') => (Rejected e, w')
       end.

Declare Scope promise_scope.
Delimit Scope promise_scope with promise.
Notation "x ← 'await' p ; k" := (and_then p (λ x, k))
  (at level 20, p at level 100, k at level 200, only parsing) : promise_scope.
Notation "'await' p ; k" := (and_then p (λ _, k))
  (at level 20, p at level 100, k at level 200, only parsing) : promise_scope.
Open Scope promise_scope.

Record TrpcSessionUser := mkSessionUser {
  session_user_id : Z;
  session_user_role : string
}.

Record Ctx := mkCtx { ctx_user : TrpcSessionUser }.
Record TAdminDeleteInput := mkInput { orgId : Z }.

Record AdminDeleteOption := mkOption {
  ctx : Ctx;
  input : TAdminDeleteInput
}.

Record AdminDeleteResult := mkResult {
  ok : bool;
  message : string
}.

Section Handler.

(** Whether a mutating call, issued in a given world, is rejected by its
    collaborator (a constraint of the store, the network, the provider). *)
Variable fails : World → Call → bool.

(** Modelled from the spec: [deleteDomain] of
    @calcom/lib/vercel/organizationDomain is the outbound
    [releaseDomain(slug) -> void]; the call either releases the name at
    the provider or rejects. *)
Definition deleteDomain (s : string) : Promise unit := λ w,
  let c := DeleteDomain s in
  if fails w c then (Rejected (CallFailed c), log c w)
  else (Resolved (), log c (with_domains (λ d, d ∖ {[s]}) w)).

(** [prisma.user.update]: rejects when no row has the id, or when the
    store rejects the write. *)
Definition prisma_user_update (uid : Z) (v : string) : Promise unit := λ w,
  let c := UserUpdate uid v in
  match users (store w) !! uid with
  | None => (Rejected (RecordNotFound c), log c w)
  | Some _ =>
      if fails w c then (Rejected (CallFailed c), log c w)
      else (Resolved (), log c (with_store (store_user_update uid v) w))
  end.

(** [prisma.team.delete]: rejects when no row has the id, or when the
    store rejects the deletion. *)
Definition prisma_team_delete (tid : Z) : Promise unit := λ w,
  let c := TeamDelete tid in
  match teams (store w) !! tid with
  | None => (Rejected (RecordNotFound c), log c w)
  | Some _ =>
      if fails w c then (Rejected (CallFailed c), log c w)
      else (Resolved (), log c (with_store (store_team_delete tid) w))
  end.

(** The lookup is a read: it leaves the world as it is. *)
Definition prisma_team_findUnique (tid : Z) : Promise (option FoundOrg) := λ w,
  (Resolved (team_findUnique (store w) tid), w).

(** The username written for a member: [`${user.username || ""}-${user.id}`]
    (handler, line 66). *)
Definition renamed (u : User) : string :=
  or_empty (username u) +:+ "-" +:+ number_to_string (id u).

(** [renameUsers] (handler, lines 59-70): one awaited update per user, in
    the order of the list. *)
Fixpoint renameUsers (us : list User) : Promise unit :=
  match us with
  | [] => resolve ()
  | u :: rest =>
      await prisma_user_update (id u) (renamed u);
      renameUsers rest
  end.

(** [adminDeleteHandler] (handler, lines 16-55).  Only [input] is taken from
    its argument. *)
Definition adminDeleteHandler (opts : AdminDeleteOption) : Promise AdminDeleteResult :=
  let input := input opts in
  foundOrg ← await prisma_team_findUnique (orgId input);
  match foundOrg with
  | None => throw (TRPCError "FORBIDDEN" "This team isnt a org or doesnt exist")
  | Some foundOrg =>
      await (match slug (team foundOrg) with
             | Some s => if truthy (Some s) then deleteDomain s else resolve ()
             | None => resolve ()
             end);
      await renameUsers (map user (members foundOrg));
      await prisma_team_delete (orgId input);
      resolve (mkResult true ("Organization " +:+ name (team foundOrg) +:+ " deleted."))
  end.

End Handler.

(** ** Notions used in the statements *)

(** The call that renames a member. *)
Definition rename_call (u : User) : Call := UserUpdate (id u) (renamed u).

(** The users table after the members [us] have been renamed in order. *)
Definition rename_all (us : list User) (m : gmap Z users_row) : gmap Z users_row :=
  foldl (λ acc u, alter (set_username (Some (renamed u))) (id u) acc) m us.

(** The second statement of the handler: release the domain when the
    organization has a slug. *)
Definition release_slug (fails : World → Call → bool) (t : Team) : Promise unit :=
  match slug t with
  | Some s => if truthy (Some s) then deleteDomain fails s else resolve ()
  | None => resolve ()
  end.

(** The calls it issues, and the domains it leaves registered. *)
Definition release_calls (t : Team) : list Call :=
  match slug t with
  | Some s => if truthy (Some s) then [DeleteDomain s] else []
  | None => []
  end.

Definition released (t : Team) (d : gset string) : gset string :=
  match slug t with
  | Some s => if truthy (Some s) then d ∖ {[s]} else d
  | None => d
  end.

Definition success_message (t : Team) : AdminDeleteResult :=
  mkResult true ("Organization " +:+ name t +:+ " deleted.").

Definition forbidden : Error :=
  TRPCError "FORBIDDEN" "This team isnt a org or doesnt exist".

(** The world once the domain (if any) has been released. *)
Definition after_release (w : World) (t : Team) : World :=
  mkWorld (store w) (released t (domains w)) (trace w ++ release_calls t).

(** The world after [us] have all been renamed, starting from [w]. *)
Definition after_renames (us : list User) (w : World) : World :=
  mkWorld (mkStore (teams (store w)) (rename_all us (users (store w)))
                   (memberships (store w)))
          (domains w) (trace w ++ map rename_call us).

Definition is_release (c : Call) : bool :=
  match c with DeleteDomain _ => true | _ => false end.

(** The four ways a run on an organization [t] ends. *)
Inductive handler_run (fails : World → Call → bool) (opts : AdminDeleteOption)
    (w : World) (t : Team) : Outcome AdminDeleteResult * World → Prop :=
| run_release_rejected s :
    slug t = Some s → s ≠ "" → fails w (DeleteDomain s) = true →
    handler_run fails opts w t
      (Rejected (CallFailed (DeleteDomain s)), log (DeleteDomain s) w)
| run_rename_rejected us1 u us2 :
    release_slug fails t w = (Resolved (), after_release w t) →
    map user (team_members (store w) (orgId (input opts))) = us1 ++ u :: us2 →
    renameUsers fails us1 (after_release w t)
    = (Resolved (), after_renames us1 (after_release w t)) →
    fails (after_renames us1 (after_release w t)) (rename_call u) = true →
    handler_run fails opts w t
      (Rejected (CallFailed (rename_call u)),
       log (rename_call u) (after_renames us1 (after_release w t)))
| run_delete_rejected :
    release_slug fails t w = (Resolved (), after_release w t) →
    fails (after_renames (map user (team_members (store w) (orgId (input opts))))
                         (after_release w t))
          (TeamDelete (orgId (input opts))) = true →
    handler_run fails opts w t
      (Rejected (CallFailed (TeamDelete (orgId (input opts)))),
       log (TeamDelete (orgId (input opts)))
         (after_renames (map user (team_members (store w) (orgId (input opts))))
            (after_release w t)))
| run_resolved :
    release_slug fails t w = (Resolved (), after_release w t) →
    handler_run fails opts w t
      (Resolved (success_message t),
       log (TeamDelete (orgId (input opts)))
         (with_store (store_team_delete (orgId (input opts)))
            (after_renames (map user (team_members (store w) (orgId (input opts))))
               (after_release w t)))).

(** Whether a character occurs in a string. *)
Fixpoint has_char (c : ascii) (s : string) : bool :=
  match s with
  | EmptyString => false
  | String a s' => bool_decide (a = c) || has_char c s'
  end.

(** ** Worked scenarios *)

Global Instance Call_eq_dec : EqDecision Call.
Proof. solve_decision. Defined.

Definition never_fails : World → Call → bool := λ _ _, false.

(** The collaborator rejects exactly the call [c]. *)
Definition fails_on (c : Call) : World → Call → bool :=
  λ _ c', bool_decide (c' = c).

Definition organization_metadata : option Json :=
  Some (JObject [("isOrganization", JBool true)]).

Definition acme : Team := mkTeam "Acme" (Some "acme") organization_metadata None.

(** A team that is not an organization. *)
Definition seeded_team : Team :=
  mkTeam "Seeded" (Some "seeded") (Some (JObject [("isOrganization", JBool false)])) None.

Definition acme_store : Store :=
  mkStore {[ 42 := acme; 7 := seeded_team ]}
          {[ 1 := mkUsersRow (Some "alice") (Some 42); 2 := mkUsersRow None None ]}
          [ mkMembership 42 1 true OWNER; mkMembership 42 2 false MEMBER;
            mkMembership 7 1 true ADMIN ].

Definition acme_world : World := mkWorld acme_store {[ "acme"; "seeded" ]} [].

Definition admin : Ctx := mkCtx (mkSessionUser 100 "ADMIN").
Definition delete_acme : AdminDeleteOption := mkOption admin (mkInput 42).
Definition delete_seeded : AdminDeleteOption := mkOption admin (mkInput 7).

(** The world after the successful deletion of Acme. *)
Definition acme_deleted : World :=
  mkWorld
    (mkStore {[ 7 := seeded_team ]}
             {[ 1 := mkUsersRow (Some "alice-1") None; 2 := mkUsersRow (Some "-2") None ]}
             [ mkMembership 7 1 true ADMIN ])
    {[ "seeded" ]}
    [ DeleteDomain "acme"; UserUpdate 1 "alice-1"; UserUpdate 2 "-2"; TeamDelete 42 ].

(** The world in which the rename of Acme's second member has been
    rejected: the first member is renamed, the domain is released, the team
    and its membership rows are still there. *)
Definition acme_partial : World :=
  mkWorld
    (mkStore {[ 42 := acme; 7 := seeded_team ]}
             {[ 1 := mkUsersRow (Some "alice-1") (Some 42); 2 := mkUsersRow None None ]}
             [ mkMembership 42 1 true OWNER; mkMembership 42 2 false MEMBER;
               mkMembership 7 1 true ADMIN ])
    {[ "seeded" ]}
    [ DeleteDomain "acme"; UserUpdate 1 "alice-1"; UserUpdate 2 "-2" ].

(** ** The organizations migration

    The schema is modelled by its columns, indexes and foreign keys, the
    data by the rows of each table; a statement either applies or fails. *)

Inductive SqlValue :=
| SqlInt (n : Z)
| SqlText (s : string).

Global Instance SqlValue_eq_dec : EqDecision SqlValue.
Proof. solve_decision. Defined.

(** A row maps column names to values; an absent column holds NULL. *)
Abbreviation Row := (gmap string SqlValue).

Inductive SqlType := INTEGER | TEXT.

Record Column := mkColumn {
  col_table : string;
  col_name : string;
  col_type : SqlType;
  col_nullable : bool
}.

Record Index := mkIndex {
  idx_name : string;
  idx_table : string;
  idx_columns : list string;
  idx_unique : bool
}.

Inductive Action := NO_ACTION | RESTRICT | SET_NULL | CASCADE.

Record ForeignKey := mkForeignKey {
  fk_name : string;
  fk_table : string;
  fk_column : string;
  fk_ref_table : string;
  fk_ref_column : string;
  fk_on_delete : Action;
  fk_on_update : Action
}.

Record Database := mkDatabase {
  columns : list Column;
  indexes : list Index;
  foreign_keys : list ForeignKey;
  rows : gmap string (list Row)
}.

Global Instance SqlType_eq_dec : EqDecision SqlType.
Proof. solve_decision. Defined.
Global Instance Column_eq_dec : EqDecision Column.
Proof. solve_decision. Defined.
Global Instance Index_eq_dec : EqDecision Index.
Proof. solve_decision. Defined.

Inductive Statement :=
| DROP_INDEX (name : string)
| ADD_COLUMN (table column : string) (ty : SqlType)
| CREATE_UNIQUE_INDEX (name table : string) (cols : list string)
| ADD_FOREIGN_KEY (table name column ref_table ref_column : string)
                  (on_delete on_update : Action).

Definition table_rows (db : Database) (t : string) : list Row :=
  default [] (rows db !! t).

Definition has_column (db : Database) (t c : string) : bool :=
  existsb (λ col, bool_decide (col_table col = t ∧ col_name col = c)) (columns db).

Definition has_index (db : Database) (n : string) : bool :=
  existsb (λ ix, bool_decide (idx_name ix = n)) (indexes db).

Definition has_foreign_key (db : Database) (n : string) : bool :=
  existsb (λ fk, bool_decide (fk_name fk = n)) (foreign_keys db).

(** The key of a row under an index; there is none when an indexed column
    holds NULL, and such a row conflicts with no other. *)
Fixpoint index_key (cols : list string) (r : Row) : option (list SqlValue) :=
  match cols with
  | [] => Some []
  | c :: cs =>
      match r !! c, index_key cs r with
      | Some v, Some k => Some (v :: k)
      | _, _ => None
      end
  end.

Definition conflict (cols : list string) (r1 r2 : Row) : bool :=
  match index_key cols r1 with
  | Some k => bool_decide (index_key cols r2 = Some k)
  | None => false
  end.

Fixpoint unique_ok (cols : list string) (rs : list Row) : bool :=
  match rs with
  | [] => true
  | r :: rest => forallb (λ r', negb (conflict cols r r')) rest && unique_ok cols rest
  end.

Definition references_ok (db : Database) (c rt rc : string) (rs : list Row) : bool :=
  forallb (λ r : Row,
             match r !! c with
             | Some v => existsb (λ r' : Row, bool_decide (r' !! rc = Some v))
                                 (table_rows db rt)
             | None => true
             end) rs.

Definition exec (st : Statement) (db : Database) : option Database :=
  match st with
  | DROP_INDEX n =>
      if has_index db n then
        Some (mkDatabase (columns db)
                         (filter (λ ix, idx_name ix ≠ n) (indexes db))
                         (foreign_keys db) (rows db))
      else None
  | ADD_COLUMN t c ty =>
      if has_column db t c then None
      else Some (mkDatabase (columns db ++ [mkColumn t c ty true])
                            (indexes db) (foreign_keys db)
                            (alter (fmap (delete c)) t (rows db)))
  | CREATE_UNIQUE_INDEX n t cols =>
      if has_index db n then None
      else if forallb (has_column db t) cols && unique_ok cols (table_rows db t) then
        Some (mkDatabase (columns db) (indexes db ++ [mkIndex n t cols true])
                         (foreign_keys db) (rows db))
      else None
  | ADD_FOREIGN_KEY t n c rt rc on_delete on_update =>
      if has_foreign_key db n then None
      else if has_column db t c && has_column db rt rc
              && references_ok db c rt rc (table_rows db t) then
        Some (mkDatabase (columns db) (indexes db)
                         (foreign_keys db ++ [mkForeignKey n t c rt rc on_delete on_update])
                         (rows db))
      else None
  end.

(** The statements are applied in order; the first failure fails the
    migration. *)
Fixpoint run (sts : list Statement) (db : Database) : option Database :=
  match sts with
  | [] => Some db
  | st :: rest =>
      match exec st db with
      | Some db' => run rest db'
      | None => None
      end
  end.

(** migration.sql *)
Definition organizations_migration : list Statement :=
  [ DROP_INDEX "users_email_idx";
    DROP_INDEX "users_username_key";
    ADD_COLUMN "Team" "parentId" INTEGER;
    ADD_COLUMN "users" "organizationId" INTEGER;
    CREATE_UNIQUE_INDEX "users_email_username_key" "users" ["email"; "username"];
    CREATE_UNIQUE_INDEX "users_username_organizationId_key" "users"
                        ["username"; "organizationId"];
    ADD_FOREIGN_KEY "users" "users_organizationId_fkey" "organizationId" "Team" "id"
                    SET_NULL CASCADE;
    ADD_FOREIGN_KEY "Team" "Team_parentId_fkey" "parentId" "Team" "id"
                    CASCADE CASCADE ].

(** Whether the unique indexes of a table accept the given rows. *)
Definition accepts (db : Database) (t : string) (rs : list Row) : bool :=
  forallb (λ ix, negb (idx_unique ix) || negb (bool_decide (idx_table ix = t))
                 || unique_ok (idx_columns ix) rs)
          (indexes db).

(** A schema before the migration, with two users and a team. *)
Definition user_row (i : Z) (uname email : string) : Row :=
  {[ "id" := SqlInt i; "username" := SqlText uname; "email" := SqlText email ]}.

Definition before_migration : Database :=
  mkDatabase
    [ mkColumn "users" "id" INTEGER false; mkColumn "users" "username" TEXT true;
      mkColumn "users" "email" TEXT false;
      mkColumn "Team" "id" INTEGER false; mkColumn "Team" "name" TEXT false ]
    [ mkIndex "users_email_key" "users" ["email"] true;
      mkIndex "users_email_idx" "users" ["email"] false;
      mkIndex "users_username_key" "users" ["username"] true ]
    []
    {[ "users" := [ user_row 1 "alice" "alice@example.com";
                    user_row 2 "bob" "bob@example.com" ];
       "Team" := [ ({[ "id" := SqlInt 42; "name" := SqlText "Acme" ]} : Row) ] ]}.

Definition after_migration : Database :=
  mkDatabase
    [ mkColumn "users" "id" INTEGER false; mkColumn "users" "username" TEXT true;
      mkColumn "users" "email" TEXT false;
      mkColumn "Team" "id" INTEGER false; mkColumn "Team" "name" TEXT false;
      mkColumn "Team" "parentId" INTEGER true;
      mkColumn "users" "organizationId" INTEGER true ]
    [ mkIndex "users_email_key" "users" ["email"] true;
      mkIndex "users_email_username_key" "users" ["email"; "username"] true;
      mkIndex "users_username_organizationId_key" "users"
              ["username"; "organizationId"] true ]
    [ mkForeignKey "users_organizationId_fkey" "users" "organizationId" "Team" "id"
                   SET_NULL CASCADE;
      mkForeignKey "Team_parentId_fkey" "Team" "parentId" "Team" "id" CASCADE CASCADE ]
    (rows before_migration).

(** Two users called alice, one in organization 42 and one in none. *)
Definition two_alices : list Row :=
  [ <["organizationId" := SqlInt 42]> (user_row 1 "alice" "alice@acme.example");
    user_row 2 "alice" "alice@example.com" ].

(** ** A store with nested teams

    Acme (42) has a team below it (43), which has one below it (44); Globex
    (8) is another organization.  User 3 is no member of Acme and is already
    called "alice-1". *)

Definition nested_store : Store :=
  mkStore {[ 42 := acme;
             43 := mkTeam "Sales" (Some "sales") None (Some 42);
             44 := mkTeam "EMEA" None None (Some 43);
             8 := mkTeam "Globex" (Some "globex") organization_metadata None ]}
          {[ 1 := mkUsersRow (Some "alice") (Some 42);
             2 := mkUsersRow None None;
             3 := mkUsersRow (Some "alice-1") (Some 8) ]}
          [ mkMembership 42 1 true OWNER; mkMembership 42 2 false MEMBER;
            mkMembership 43 1 true ADMIN; mkMembership 8 3 true OWNER ].

Definition nested_world : World := mkWorld nested_store {[ "acme"; "globex" ]} [].

(** ** The migration in closed form *)

(** What the statements of the migration require of the database, in the
    order in which they check it. *)
Definition migration_applies (db : Database) : bool :=
  has_index db "users_email_idx"
  && has_index db "users_username_key"
  && negb (has_column db "Team" "parentId")
  && negb (has_column db "users" "organizationId")
  && negb (has_index db "users_email_username_key")
  && has_column db "users" "email"
  && has_column db "users" "username"
  && unique_ok ["email"; "username"] (table_rows db "users")
  && negb (has_index db "users_username_organizationId_key")
  && negb (has_foreign_key db "users_organizationId_fkey")
  && has_column db "Team" "id"
  && negb (has_foreign_key db "Team_parentId_fkey").

(** The database they leave. *)
Definition migrated (db : Database) : Database :=
  mkDatabase
    (columns db ++ [mkColumn "Team" "parentId" INTEGER true;
                    mkColumn "users" "organizationId" INTEGER true])
    (filter (λ ix, idx_name ix ≠ "users_username_key")
       (filter (λ ix, idx_name ix ≠ "users_email_idx") (indexes db))
     ++ [mkIndex "users_email_username_key" "users" ["email"; "username"] true;
         mkIndex "users_username_organizationId_key" "users"
                 ["username"; "organizationId"] true])
    (foreign_keys db
     ++ [mkForeignKey "users_organizationId_fkey" "users" "organizationId" "Team" "id"
                      SET_NULL CASCADE;
         mkForeignKey "Team_parentId_fkey" "Team" "parentId" "Team" "id"
                      CASCADE CASCADE])
    (alter (fmap (delete "organizationId")) "users"
       (alter (fmap (delete "parentId")) "Team" (rows db))).

(** The schema before the migration with two rows of the same email and
    username. *)
Definition before_with_duplicates : Database :=
  mkDatabase (columns before_migration) (indexes before_migration)
             (foreign_keys before_migration)
             {[ "users" := [ user_row 1 "alice" "alice@example.com";
                             user_row 2 "alice" "alice@example.com" ];
                "Team" := [ ({[ "id" := SqlInt 42; "name" := SqlText "Acme" ]} : Row) ] ]}.

(** The tests on names that the statements make. *)
Abbreviation index_named n := (λ ix : Index, bool_decide (idx_name ix = n)).
Abbreviation column_named t c :=
  (λ col : Column, bool_decide (col_table col = t ∧ col_name col = c)).
Abbreviation foreign_key_named n := (λ fk : ForeignKey, bool_decide (fk_name fk = n)).

(** ** The signup tests (apps/web/playwright/signup.e2e.ts) *)

(** [String.prototype.includes]: whether [search] occurs in [s]. *)
Fixpoint starts_with (p s : string) : bool :=
  match p, s with
  | EmptyString, _ => true
  | String _ _, EmptyString => false
  | String a p', String b s' => bool_decide (a = b) && starts_with p' s'
  end.

Fixpoint includes (s search : string) : bool :=
  starts_with search s
  || match s with
     | EmptyString => false
     | String _ s' => includes s' search
     end.

(** [expect(received).toContain(expected)] on strings, and
    [expect(v).toBeDefined()] with [undefined] as [None]. *)
Definition toContain (received expected : string) : bool := includes received expected.

Definition toBeDefined {A} (v : option A) : bool :=
  match v with Some _ => true | None => false end.

(** The expectations of the tests "Username is taken" and "Email is taken"
    (lines 51-65 and 77-91), as a function of the text of the alert. *)
Definition alertMessage : string := "Username or email is already taken".

Definition taken_expectations (alertMessageInner : string) : bool :=
  toBeDefined (Some alertMessage) && toContain alertMessageInner alertMessageInner.

(** *** The expiry of the invitation token (line 171)

    Time values are milliseconds since the epoch.  [tza] is the offset of
    local time, taken as constant over the days concerned. *)

Definition msPerSecond : Z := 1000.
Definition msPerMinute : Z := 60000.
Definition msPerHour : Z := 3600000.
Definition msPerDay : Z := 86400000.

Definition Day (t : Z) : Z := t / msPerDay.
Definition HourFromTime (t : Z) : Z := (t / msPerHour) mod 24.
Definition MinFromTime (t : Z) : Z := (t / msPerMinute) mod 60.
Definition SecFromTime (t : Z) : Z := (t / msPerSecond) mod 60.
Definition msFromTime (t : Z) : Z := t mod msPerSecond.

Definition MakeTime (h m s ms : Z) : Z :=
  h * msPerHour + m * msPerMinute + s * msPerSecond + ms.

Definition MakeDate (day time : Z) : Z := day * msPerDay + time.

(** A time value outside the range of dates is not a date. *)
Definition TimeClip (t : Z) : option Z :=
  if decide (Z.abs t ≤ 8640000000000000)%Z then Some t else None.

(** [Date.prototype.setHours(h)] on the time value [t]: the hour of the
    local day is replaced, the minutes, seconds and milliseconds are kept. *)
Definition setHours (tza h t : Z) : option Z :=
  let lt := t + tza in
  TimeClip (MakeDate (Day lt)
                     (MakeTime h (MinFromTime lt) (SecFromTime lt) (msFromTime lt))
            - tza).

(** [new Date(new Date().setHours(168))] when the clock reads [now]. *)
Definition token_expires (tza now : Z) : option Z := setHours tza 168 now.

(** * Lemmas *)

(** ** JavaScript values *)

Lemma or_empty_nullish (s : option string) : or_empty s = nullish_empty s.
Proof. by destruct s as [[|c v]|]. Qed.

Lemma truthy_Some (s : string) : truthy (Some s) = true ↔ s ≠ "".
Proof. destruct s; simpl; split; intros; congruence. Qed.

Lemma append_nil (s : string) : "" +:+ s = s.
Proof. reflexivity. Qed.

Lemma append_cons (c : ascii) (a s : string) : String c a +:+ s = String c (a +:+ s).
Proof. reflexivity. Qed.

Lemma has_char_app (c : ascii) (a b : string) :
  has_char c (a +:+ b) = has_char c a || has_char c b.
Proof.
  induction a as [|x a IH]; [done|].
  rewrite append_cons. simpl. by rewrite IH, orb_assoc.
Qed.

(** A string is split in one way only at its last hyphen. *)
Lemma app_hyphen_inj (a b x y : string) :
  has_char "-" x = false → has_char "-" y = false →
  a +:+ "-" +:+ x = b +:+ "-" +:+ y → a = b ∧ x = y.
Proof.
  intros Hx Hy. revert b.
  induction a as [|c a IH]; intros [|d b];
    repeat (rewrite append_nil || rewrite append_cons); intros Heq.
  - by injection Heq as ->.
  - injection Heq as <- ->. rewrite has_char_app in Hx. simpl in Hx.
    by rewrite orb_true_r in Hx.
  - injection Heq as -> <-. rewrite has_char_app in Hy. simpl in Hy.
    by rewrite orb_true_r in Hy.
  - injection Heq as -> Heq. apply IH in Heq as [-> ->]. done.
Qed.

Lemma pretty_N_char_not_hyphen (x : N) : pretty_N_char x ≠ "-"%char.
Proof. unfold pretty_N_char. by repeat case_match. Qed.

Lemma pretty_N_go_no_hyphen (x : N) (s : string) :
  has_char "-" s = false → has_char "-" (pretty_N_go x s) = false.
Proof.
  revert s. induction (N.lt_wf_0 x) as [x _ IH]; intros s Hs.
  destruct (decide (x = 0)%N) as [->|Hx]; [by rewrite pretty_N_go_0|].
  rewrite pretty_N_go_step by lia. apply IH.
  - apply N.div_lt; lia.
  - simpl. rewrite Hs, orb_false_r. apply bool_decide_eq_false.
    apply pretty_N_char_not_hyphen.
Qed.

(** The numeral of a non-negative integer has no hyphen. *)
Lemma number_to_string_no_hyphen (n : Z) :
  (0 ≤ n)%Z → has_char "-" (number_to_string n) = false.
Proof.
  intros Hn. unfold number_to_string, pretty, pretty_Z.
  destruct n as [|p|p]; [done| |lia].
  unfold pretty, pretty_positive, pretty, pretty_N.
  case_decide; [done|]. by apply pretty_N_go_no_hyphen.
Qed.

Lemma renamed_inj (u v : User) :
  (0 ≤ id u)%Z → (0 ≤ id v)%Z → renamed u = renamed v → id u = id v.
Proof.
  intros Hu Hv Heq. unfold renamed in Heq.
  apply app_hyphen_inj in Heq as [_ Heq]; [|by apply number_to_string_no_hyphen..].
  by apply (inj pretty) in Heq.
Qed.

(** ** The store *)

Lemma set_username_idemp (x y : option string) (r : users_row) :
  set_username x (set_username y r) = set_username x r.
Proof. done. Qed.

Lemma clear_organization_username (D : gset Z) (r : users_row) :
  users_username (clear_organization D r) = users_username r.
Proof.
  unfold clear_organization.
  destruct (users_organizationId r); [case_bool_decide|]; done.
Qed.

Lemma cascade_incl (n : nat) (ts : gmap Z Team) (S : gset Z) : S ⊆ cascade n ts S.
Proof.
  revert S. induction n as [|n IH]; intros S; simpl; [done|].
  etrans; [|apply IH]. set_solver.
Qed.

Lemma deleted_teams_self (ts : gmap Z Team) (tid : Z) : tid ∈ deleted_teams ts tid.
Proof. apply (cascade_incl (size ts) ts {[tid]}). set_solver. Qed.

Lemma child_teams_dom (ts : gmap Z Team) (S : gset Z) : child_teams ts S ⊆ dom ts.
Proof. unfold child_teams. apply subseteq_dom, map_filter_subseteq. Qed.

Lemma cascade_stable (n : nat) (ts : gmap Z Team) (S : gset Z) :
  child_teams ts S ⊆ S → cascade n ts S = S.
Proof.
  intros Hs. induction n as [|n IH]; [done|]. simpl.
  replace (S ∪ child_teams ts S) with S; [done|].
  apply set_eq. intros x. rewrite elem_of_union. split; [by left|].
  intros [?|?]; [done|]. by apply Hs.
Qed.

Lemma cascade_closed (n : nat) (ts : gmap Z Team) (S : gset Z) :
  (size (dom ts ∖ S) ≤ n)%nat →
  child_teams ts (cascade n ts S) ⊆ cascade n ts S.
Proof.
  revert S. induction n as [|n IH]; intros S Hsize.
  - simpl. assert (size (dom ts ∖ S) = 0%nat) as H0%size_empty_inv by lia.
    intros x Hx%child_teams_dom.
    destruct (decide (x ∈ S)) as [|Hn]; [done|].
    exfalso. apply (not_elem_of_empty (C:=gset Z) x), H0. by apply elem_of_difference.
  - destruct (decide (child_teams ts S ⊆ S)) as [Hs|Hs].
    + by rewrite cascade_stable.
    + simpl. apply IH.
      assert (dom ts ∖ (S ∪ child_teams ts S) ⊂ dom ts ∖ S) as Hlt%subset_size; [|lia].
      split.
      * intros x. rewrite !elem_of_difference, elem_of_union.
        intros [Hd Hn]. split; [done|]. intros ?. apply Hn. by left.
      * intros Hsub. apply Hs. intros x Hx.
        destruct (decide (x ∈ S)) as [|Hn]; [done|]. exfalso.
        assert (x ∈ dom ts ∖ (S ∪ child_teams ts S)) as Hin.
        { apply Hsub, elem_of_difference. split; [|done]. by apply child_teams_dom in Hx. }
        apply elem_of_difference in Hin as [_ Hin]. apply Hin, elem_of_union. by right.
Qed.

(** No team outside the deleted set has its parent in it. *)
Lemma deleted_teams_closed (ts : gmap Z Team) (tid : Z) :
  child_teams ts (deleted_teams ts tid) ⊆ deleted_teams ts tid.
Proof.
  apply cascade_closed. rewrite <- size_dom.
  apply subseteq_size. intros x. rewrite elem_of_difference. by intros [? _].
Qed.

(** The teams that remain after a deletion have no deleted parent. *)
Lemma store_team_delete_no_orphan (tid : Z) (s : Store) (k p : Z) (t : Team) :
  teams (store_team_delete tid s) !! k = Some t →
  parentId t = Some p →
  p ∉ deleted_teams (teams s) tid.
Proof.
  simpl. intros [Hk Hn]%map_lookup_filter_Some Hp Hin. simpl in Hn.
  apply Hn, deleted_teams_closed. unfold child_teams.
  apply elem_of_dom. exists t. apply map_lookup_filter_Some. split; [done|].
  simpl. unfold parent_in. rewrite Hp. by apply bool_decide_pack.
Qed.

Lemma store_team_delete_lookup (tid : Z) (s : Store) :
  teams (store_team_delete tid s) !! tid = None.
Proof.
  simpl. apply map_lookup_filter_None. right. intros t _ Hn. simpl in Hn.
  apply Hn, deleted_teams_self.
Qed.

Lemma store_team_delete_memberships (tid : Z) (s : Store) (m : Membership) :
  m ∈ memberships (store_team_delete tid s) → teamId m ≠ tid.
Proof.
  simpl. unfold cascade_memberships. rewrite list_elem_of_filter.
  intros [Hn _] Heq. apply Hn. rewrite Heq. apply deleted_teams_self.
Qed.

Lemma store_team_delete_username (tid : Z) (s : Store) (i : Z) :
  users_username <$> users (store_team_delete tid s) !! i
  = users_username <$> users s !! i.
Proof.
  simpl. rewrite lookup_fmap. destruct (users s !! i) as [r|]; simpl; [|done].
  by rewrite clear_organization_username.
Qed.

(** The members read by the lookup are users of the store, with the store's
    username. *)
Lemma team_members_spec (s : Store) (tid : Z) (u : User) :
  u ∈ map user (team_members s tid) ↔
  ∃ m r, m ∈ memberships s ∧ teamId m = tid ∧ users s !! userId m = Some r
         ∧ u = mkUser (userId m) (users_username r).
Proof.
  unfold team_members. rewrite list_elem_of_fmap. split.
  - intros (mb & -> & Hin). apply list_elem_of_omap in Hin as (m & Hm & Hsome).
    case_decide; [|done]. destruct (users s !! userId m) as [r|] eqn:Hr; [|done].
    simplify_eq. by exists m, r.
  - intros (m & r & Hm & Ht & Hr & ->).
    exists (mkMember (mkUser (userId m) (users_username r))). split; [done|].
    apply list_elem_of_omap. exists m. split; [done|].
    rewrite decide_True by done. by rewrite Hr.
Qed.

Lemma team_members_lookup (s : Store) (tid : Z) (u : User) :
  u ∈ map user (team_members s tid) →
  ∃ r, users s !! id u = Some r ∧ users_username r = username u.
Proof.
  rewrite team_members_spec. intros (m & r & _ & _ & Hr & ->). by exists r.
Qed.

(** Two fetched members with the same id carry the same username. *)
Lemma team_members_functional (s : Store) (tid : Z) (v v' : User) :
  v ∈ map user (team_members s tid) → v' ∈ map user (team_members s tid) →
  id v' = id v → v' = v.
Proof.
  intros (r & Hr & Hu)%team_members_lookup (r' & Hr' & Hu')%team_members_lookup Hid.
  rewrite Hid, Hr in Hr'. injection Hr' as <-.
  destruct v, v'. simpl in *. congruence.
Qed.

(** The members are fetched in the order of the store's membership rows. *)
Lemma team_members_order (s : Store) (tid : Z) :
  map (λ mb, id (user mb)) (team_members s tid)
  = map userId (filter (λ m, teamId m = tid ∧ is_Some (users s !! userId m))
                       (memberships s)).
Proof.
  unfold team_members. set (f := λ m : Membership, _).
  induction (memberships s) as [|m ms IH]; [done|].
  change (omap f (m :: ms))
    with (match f m with Some y => y :: omap f ms | None => omap f ms end).
  rewrite filter_cons. unfold f at 1. case_decide as Ht.
  - destruct (users s !! userId m) as [r|] eqn:Hr.
    + rewrite decide_True by (split; [done|by eexists]).
      rewrite !map_cons. by rewrite IH.
    + rewrite decide_False; [done|]. intros [_ [? ?]]. congruence.
  - rewrite decide_False; [done|]. by intros [? _].
Qed.

Lemma team_findUnique_Some (s : Store) (tid : Z) (o : FoundOrg) :
  team_findUnique s tid = Some o ↔
  teams s !! tid = Some (team o) ∧ isOrganization (team o) = true
  ∧ members o = team_members s tid.
Proof.
  unfold team_findUnique. split.
  - destruct (teams s !! tid) as [t|]; [|done].
    destruct (isOrganization t) eqn:Ht; [|done]. intros [= <-]. done.
  - destruct o as [t ms]. simpl. intros (-> & -> & ->). done.
Qed.

Lemma team_findUnique_None (s : Store) (tid : Z) :
  team_findUnique s tid = None ↔
  ∀ t, teams s !! tid = Some t → isOrganization t = false.
Proof.
  unfold team_findUnique. split.
  - destruct (teams s !! tid) as [t|]; [|done].
    destruct (isOrganization t) eqn:Ht; [done|]. by intros _ t' [= <-].
  - intros H. destruct (teams s !! tid) as [t|]; [|done]. by rewrite (H t).
Qed.

(** ** The users table after a run of renames *)

Lemma rename_all_snoc (us : list User) (u : User) (m : gmap Z users_row) :
  rename_all (us ++ [u]) m
  = alter (set_username (Some (renamed u))) (id u) (rename_all us m).
Proof. unfold rename_all. by rewrite foldl_app. Qed.

Lemma rename_all_lookup_other (us : list User) (m : gmap Z users_row) (i : Z) :
  i ∉ map id us → rename_all us m !! i = m !! i.
Proof.
  induction us as [|u us IH] using rev_ind; [done|].
  rewrite map_app, not_elem_of_app. simpl. intros [H1 H2].
  rewrite rename_all_snoc, lookup_alter_ne; [by apply IH|]. set_solver.
Qed.

Lemma rename_all_lookup_set (us : list User) (m : gmap Z users_row) (i : Z) x :
  set_username x <$> rename_all us m !! i = set_username x <$> m !! i.
Proof.
  induction us as [|u us IH] using rev_ind; [done|].
  rewrite rename_all_snoc. destruct (decide (id u = i)) as [->|Hne].
  - rewrite lookup_alter_eq, <- option_fmap_compose, <- IH.
    by destruct (rename_all us m !! i).
  - by rewrite lookup_alter_ne.
Qed.

Lemma rename_all_lookup_member (us : list User) (m : gmap Z users_row) (v : User) :
  v ∈ us →
  (∀ v', v' ∈ us → id v' = id v → renamed v' = renamed v) →
  rename_all us m !! id v = set_username (Some (renamed v)) <$> m !! id v.
Proof.
  induction us as [|u us IH] using rev_ind; [by intros ?%elem_of_nil|].
  intros Hin Hfun. rewrite rename_all_snoc.
  destruct (decide (id u = id v)) as [Heq|Hne].
  - rewrite Heq, lookup_alter_eq, <- (Hfun u), <- (rename_all_lookup_set us m (id v));
      [ | apply elem_of_app; right; constructor | done].
    by destruct (rename_all us m !! id v).
  - rewrite lookup_alter_ne by done.
    apply IH; [|intros v' Hv'; apply Hfun, elem_of_app; by left].
    apply elem_of_app in Hin as [?|Hin]; [done|].
    apply list_elem_of_singleton in Hin. congruence.
Qed.

(** ** Runs of the collaborator calls *)

Lemma and_then_resolved_inv {A B} (p : Promise A) (k : A → Promise B) w b w' :
  and_then p k w = (Resolved b, w') →
  ∃ a w1, p w = (Resolved a, w1) ∧ k a w1 = (Resolved b, w').
Proof.
  unfold and_then. destruct (p w) as [[a|e] w1]; [|done]. intros H. by exists a, w1.
Qed.

Lemma and_then_rejected_inv {A B} (p : Promise A) (k : A → Promise B) w e w' :
  and_then p k w = (Rejected e, w') →
  p w = (Rejected e, w') ∨ ∃ a w1, p w = (Resolved a, w1) ∧ k a w1 = (Rejected e, w').
Proof.
  unfold and_then. destruct (p w) as [[a|e1] w1]; intros H.
  - right. by exists a, w1.
  - left. by injection H as -> ->.
Qed.

Lemma and_then_step {A B} (p : Promise A) (k : A → Promise B) w a w1 :
  p w = (Resolved a, w1) → and_then p k w = k a w1.
Proof. unfold and_then. by intros ->. Qed.

Section Runs.

Variable fails : World → Call → bool.

Lemma release_slug_resolved t w w1 :
  release_slug fails t w = (Resolved (), w1) →
  w1 = mkWorld (store w) (released t (domains w)) (trace w ++ release_calls t).
Proof.
  unfold release_slug, released, release_calls, deleteDomain, resolve.
  destruct (slug t) as [s|]; [destruct (truthy (Some s))|].
  - destruct (fails w (DeleteDomain s)); [done|]. by intros [= <-].
  - intros [= <-]. destruct w. simpl. by rewrite app_nil_r.
  - intros [= <-]. destruct w. simpl. by rewrite app_nil_r.
Qed.

Lemma release_slug_rejected t w e w1 :
  release_slug fails t w = (Rejected e, w1) →
  ∃ s, slug t = Some s ∧ s ≠ "" ∧ fails w (DeleteDomain s) = true
       ∧ e = CallFailed (DeleteDomain s) ∧ w1 = log (DeleteDomain s) w.
Proof.
  unfold release_slug, deleteDomain, resolve.
  destruct (slug t) as [s|]; [destruct (truthy (Some s)) eqn:Hs|]; [|done..].
  destruct (fails w (DeleteDomain s)) eqn:Hf; [|done]. intros [= <- <-].
  exists s. by rewrite <- truthy_Some.
Qed.

Lemma prisma_user_update_resolved uid v w w' :
  prisma_user_update fails uid v w = (Resolved (), w') →
  is_Some (users (store w) !! uid) ∧ fails w (UserUpdate uid v) = false
  ∧ w' = log (UserUpdate uid v) (with_store (store_user_update uid v) w).
Proof.
  unfold prisma_user_update. destruct (users (store w) !! uid) as [r|]; [|done].
  destruct (fails w (UserUpdate uid v)); [done|]. intros [= <-]. eauto.
Qed.

Lemma prisma_user_update_rejected uid v w e w' :
  prisma_user_update fails uid v w = (Rejected e, w') →
  w' = log (UserUpdate uid v) w
  ∧ (e = CallFailed (UserUpdate uid v) ∧ fails w (UserUpdate uid v) = true
     ∨ e = RecordNotFound (UserUpdate uid v) ∧ users (store w) !! uid = None).
Proof.
  unfold prisma_user_update. destruct (users (store w) !! uid) as [r|].
  - destruct (fails w (UserUpdate uid v)); [|done]. intros [= <- <-]. eauto.
  - intros [= <- <-]. eauto.
Qed.

Lemma prisma_team_delete_resolved tid w w' :
  prisma_team_delete fails tid w = (Resolved (), w') →
  w' = log (TeamDelete tid) (with_store (store_team_delete tid) w).
Proof.
  unfold prisma_team_delete. destruct (teams (store w) !! tid); [|done].
  destruct (fails w (TeamDelete tid)); [done|]. by intros [= <-].
Qed.

Lemma prisma_team_delete_rejected tid w e w' :
  prisma_team_delete fails tid w = (Rejected e, w') →
  w' = log (TeamDelete tid) w
  ∧ (e = CallFailed (TeamDelete tid) ∧ fails w (TeamDelete tid) = true
     ∨ e = RecordNotFound (TeamDelete tid) ∧ teams (store w) !! tid = None).
Proof.
  unfold prisma_team_delete. destruct (teams (store w) !! tid).
  - destruct (fails w (TeamDelete tid)); [|done]. intros [= <- <-]. eauto.
  - intros [= <- <-]. eauto.
Qed.

Lemma after_renames_nil w : after_renames [] w = w.
Proof. destruct w as [[ts us ms] d tr]. unfold after_renames. simpl. by rewrite app_nil_r. Qed.

Lemma after_renames_cons u us w :
  after_renames us (log (UserUpdate (id u) (renamed u))
                      (with_store (store_user_update (id u) (renamed u)) w))
  = after_renames (u :: us) w.
Proof. unfold after_renames. simpl. by rewrite <- app_assoc. Qed.

Lemma renameUsers_resolved us w w' :
  renameUsers fails us w = (Resolved (), w') → w' = after_renames us w.
Proof.
  revert w. induction us as [|u us IH]; intros w; simpl.
  - intros [= <-]. by rewrite after_renames_nil.
  - intros (a & w1 & Hu & Hrest)%and_then_resolved_inv. destruct a.
    apply prisma_user_update_resolved in Hu as (_ & _ & ->).
    apply IH in Hrest as ->. apply after_renames_cons.
Qed.

(** A run of renames that rejects stops at the first member whose update
    is rejected: the members before it are renamed, it is logged as
    attempted, and nothing after it is touched. *)
Lemma renameUsers_rejected us w e w' :
  renameUsers fails us w = (Rejected e, w') →
  ∃ us1 u us2, us = us1 ++ u :: us2
    ∧ w' = log (rename_call u) (after_renames us1 w)
    ∧ (e = CallFailed (rename_call u)
       ∧ fails (after_renames us1 w) (rename_call u) = true
       ∨ e = RecordNotFound (rename_call u)
         ∧ users (store (after_renames us1 w)) !! id u = None).
Proof.
  revert w. induction us as [|u us IH]; intros w; simpl; [done|].
  intros [Hu|(a & w1 & Hu & Hrest)]%and_then_rejected_inv.
  - apply prisma_user_update_rejected in Hu as [-> He].
    exists [], u, us. rewrite after_renames_nil. done.
  - destruct a. apply prisma_user_update_resolved in Hu as (_ & _ & ->).
    apply IH in Hrest as (us1 & v & us2 & -> & -> & He).
    rewrite after_renames_cons in He. rewrite after_renames_cons.
    by exists (u :: us1), v, us2.
Qed.

Lemma renameUsers_app us1 us2 w :
  renameUsers fails (us1 ++ us2) w
  = and_then (renameUsers fails us1) (λ _, renameUsers fails us2) w.
Proof.
  revert w. induction us1 as [|u us1 IH]; intros w; simpl; [done|].
  unfold and_then.
  destruct (prisma_user_update fails (id u) (renamed u) w) as [[a|e] w1]; [|done].
  apply IH.
Qed.

Lemma rename_all_is_Some us (m : gmap Z users_row) i :
  is_Some (rename_all us m !! i) ↔ is_Some (m !! i).
Proof.
  rewrite <- (fmap_is_Some (set_username None) (rename_all us m !! i)).
  rewrite rename_all_lookup_set. apply fmap_is_Some.
Qed.

(** The rename of the member after [us1] is rejected. *)
Lemma renameUsers_fails_at us1 u us2 w w1 :
  renameUsers fails us1 w = (Resolved (), w1) →
  is_Some (users (store w) !! id u) →
  fails w1 (rename_call u) = true →
  renameUsers fails (us1 ++ u :: us2) w
  = (Rejected (CallFailed (rename_call u)), log (rename_call u) w1).
Proof.
  intros H1 Hu Hf. rewrite renameUsers_app, (and_then_step _ _ _ _ _ H1). simpl.
  unfold and_then, prisma_user_update. fold (rename_call u). rewrite Hf.
  apply renameUsers_resolved in H1 as ->. simpl.
  apply (rename_all_is_Some us1) in Hu as [r ->]. done.
Qed.

End Runs.

(** ** Runs of the handler *)

Lemma adminDeleteHandler_not_found fails opts w :
  team_findUnique (store w) (orgId (input opts)) = None →
  adminDeleteHandler fails opts w = (Rejected forbidden, w).
Proof.
  intros H. unfold adminDeleteHandler, and_then, prisma_team_findUnique.
  by rewrite H.
Qed.

Lemma adminDeleteHandler_found fails opts w t :
  teams (store w) !! orgId (input opts) = Some t → isOrganization t = true →
  adminDeleteHandler fails opts w
  = and_then (release_slug fails t)
      (λ _, and_then (renameUsers fails
                        (map user (team_members (store w) (orgId (input opts)))))
      (λ _, and_then (prisma_team_delete fails (orgId (input opts)))
      (λ _, resolve (success_message t)))) w.
Proof.
  intros Ht Ho. unfold adminDeleteHandler, prisma_team_findUnique, team_findUnique.
  unfold and_then at 1. rewrite Ht, Ho. done.
Qed.

Lemma adminDeleteHandler_cases fails opts w t :
  teams (store w) !! orgId (input opts) = Some t → isOrganization t = true →
  handler_run fails opts w t (adminDeleteHandler fails opts w).
Proof.
  intros Ht Ho. rewrite (adminDeleteHandler_found fails opts w t Ht Ho).
  set (oid := orgId (input opts)) in *.
  unfold and_then at 1.
  destruct (release_slug fails t w) as [[[]|e] w1] eqn:H1.
  2:{ apply release_slug_rejected in H1 as (s & Hs & Hne & Hf & -> & ->).
      by apply run_release_rejected. }
  pose proof (release_slug_resolved _ _ _ _ H1) as Hw1. fold (after_release w t) in Hw1.
  subst w1. unfold and_then at 1.
  destruct (renameUsers fails _ (after_release w t)) as [[[]|e] w2] eqn:H2.
  2:{ pose proof H2 as H2'.
      apply renameUsers_rejected in H2 as (us1 & u & us2 & Hus & -> & He).
      destruct He as [[-> Hf]|[_ Hnone]].
      2:{ exfalso. assert (u ∈ map user (team_members (store w) oid)) as Hu.
          { rewrite Hus. apply elem_of_app. right. constructor. }
          apply team_members_lookup in Hu as (r & Hr & _).
          simpl in Hnone. apply eq_None_not_Some in Hnone. apply Hnone.
          apply rename_all_is_Some. by rewrite Hr. }
      eapply run_rename_rejected; [done..| |done].
      rewrite Hus, renameUsers_app in H2'. unfold and_then in H2'.
      destruct (renameUsers fails us1 (after_release w t)) as [[[]|e1] w3] eqn:H3.
      - by apply renameUsers_resolved in H3 as ->.
      - exfalso. injection H2' as -> ->.
        apply renameUsers_rejected in H3 as (a1 & a & a2 & -> & Hl & _).
        apply (f_equal (λ x, length (trace x))) in Hl. revert Hl.
        unfold log, after_renames. simpl.
        rewrite !length_app, !length_map, !length_app. simpl. lia. }
  apply renameUsers_resolved in H2 as ->. unfold and_then.
  destruct (prisma_team_delete fails oid _) as [[[]|e] w3] eqn:H3.
  - apply prisma_team_delete_resolved in H3 as ->. by apply run_resolved.
  - apply prisma_team_delete_rejected in H3 as [-> [[-> Hf]|[_ Hnone]]].
    + by apply run_delete_rejected.
    + simpl in Hnone. congruence.
Qed.

Lemma adminDeleteHandler_resolved_inv fails opts w r w' :
  adminDeleteHandler fails opts w = (Resolved r, w') →
  ∃ t, teams (store w) !! orgId (input opts) = Some t
     ∧ isOrganization t = true
     ∧ r = success_message t
     ∧ w' = log (TeamDelete (orgId (input opts)))
              (with_store (store_team_delete (orgId (input opts)))
                 (after_renames (map user (team_members (store w) (orgId (input opts))))
                    (after_release w t))).
Proof.
  intros Hrun.
  destruct (team_findUnique (store w) (orgId (input opts))) as [o|] eqn:Hf.
  - apply team_findUnique_Some in Hf as (Ht & Ho & _).
    pose proof (adminDeleteHandler_cases fails opts w _ Ht Ho) as Hc.
    rewrite Hrun in Hc. inversion Hc; subst. by exists (team o).
  - rewrite (adminDeleteHandler_not_found fails opts w Hf) in Hrun. done.
Qed.

(** Without rejected calls, the handler resolves on every organization. *)
Lemma adminDeleteHandler_resolves fails opts w t :
  (∀ w0 c, fails w0 c = false) →
  teams (store w) !! orgId (input opts) = Some t → isOrganization t = true →
  ∃ w', adminDeleteHandler fails opts w = (Resolved (success_message t), w').
Proof.
  intros Hnf Ht Ho.
  pose proof (adminDeleteHandler_cases fails opts w t Ht Ho) as Hc.
  inversion Hc; subst;
    try match goal with
        | Hf : fails _ _ = true |- _ => rewrite Hnf in Hf; discriminate
        end.
  eauto.
Qed.

Lemma renames_not_release (us : list User) :
  Forall (λ c, is_release c = false) (map rename_call us).
Proof. induction us; constructor; done. Qed.

(** The calls issued by a run on an organization: the release of the slug
    first (when there is one), then calls that are not releases. *)
Lemma adminDeleteHandler_trace fails opts w t :
  teams (store w) !! orgId (input opts) = Some t → isOrganization t = true →
  ∃ rest, trace (adminDeleteHandler fails opts w).2 = trace w ++ release_calls t ++ rest
          ∧ Forall (λ c, is_release c = false) rest.
Proof.
  intros Ht Ho.
  destruct (adminDeleteHandler_cases fails opts w t Ht Ho)
    as [s Hs Hne _|us1 u us2 _ _ _ _|_ _|_];
    cbn [snd log with_store after_renames after_release trace].
  - exists []. split; [|constructor].
    unfold release_calls. rewrite Hs. apply truthy_Some in Hne as ->.
    by rewrite app_nil_r.
  - exists (map rename_call us1 ++ [rename_call u]). rewrite <- !List.app_assoc.
    split; [done|]. apply Forall_app. split; [apply renames_not_release|].
    by constructor.
  - exists (map rename_call (map user (team_members (store w) (orgId (input opts))))
            ++ [TeamDelete (orgId (input opts))]).
    rewrite <- !List.app_assoc.
    split; [done|]. apply Forall_app. split; [apply renames_not_release|].
    by constructor.
  - exists (map rename_call (map user (team_members (store w) (orgId (input opts))))
            ++ [TeamDelete (orgId (input opts))]).
    rewrite <- !List.app_assoc.
    split; [done|]. apply Forall_app. split; [apply renames_not_release|].
    by constructor.
Qed.

(** ** Runs of the migration *)

Lemma run_cons_inv (st : Statement) (sts : list Statement) (db db' : Database) :
  run (st :: sts) db = Some db' →
  ∃ db1, exec st db = Some db1 ∧ run sts db1 = Some db'.
Proof. simpl. destruct (exec st db) as [db1|]; [|done]. by exists db1. Qed.

Lemma exec_drop_index_inv (n : string) (db db1 : Database) :
  exec (DROP_INDEX n) db = Some db1 →
  has_index db n = true
  ∧ columns db1 = columns db
  ∧ indexes db1 = filter (λ ix, idx_name ix ≠ n) (indexes db).
Proof. simpl. destruct (has_index db n); [|done]. by intros [= <-]. Qed.

Lemma exec_add_column_inv (t c : string) (ty : SqlType) (db db1 : Database) :
  exec (ADD_COLUMN t c ty) db = Some db1 →
  columns db1 = columns db ++ [mkColumn t c ty true] ∧ indexes db1 = indexes db.
Proof. simpl. destruct (has_column db t c); [done|]. by intros [= <-]. Qed.

Lemma exec_create_unique_index_inv (n t : string) (cols : list string)
    (db db1 : Database) :
  exec (CREATE_UNIQUE_INDEX n t cols) db = Some db1 →
  unique_ok cols (table_rows db t) = true
  ∧ columns db1 = columns db
  ∧ indexes db1 = indexes db ++ [mkIndex n t cols true].
Proof.
  simpl. destruct (has_index db n); [done|].
  destruct (forallb (has_column db t) cols); [|done].
  destruct (unique_ok cols (table_rows db t)); [|done]. by intros [= <-].
Qed.

Lemma exec_add_foreign_key_inv (t n c rt rc : string) (d u : Action)
    (db db1 : Database) :
  exec (ADD_FOREIGN_KEY t n c rt rc d u) db = Some db1 →
  columns db1 = columns db ∧ indexes db1 = indexes db.
Proof.
  simpl. destruct (has_foreign_key db n); [done|].
  destruct (_ && _); [|done]. by intros [= <-].
Qed.

Lemma has_index_elem (db : Database) (n : string) :
  has_index db n = true → ∃ ix, ix ∈ indexes db ∧ idx_name ix = n.
Proof.
  unfold has_index. rewrite existsb_exists. intros (ix & Hin & Hn).
  exists ix. split; [by apply list_elem_of_In|]. by apply bool_decide_eq_true in Hn.
Qed.

(** The schema after the migration, in terms of the schema before it. *)
Lemma organizations_migration_schema (db db' : Database) :
  run organizations_migration db = Some db' →
  has_index db "users_username_key" = true
  ∧ columns db'
    = columns db ++ [mkColumn "Team" "parentId" INTEGER true;
                     mkColumn "users" "organizationId" INTEGER true]
  ∧ indexes db'
    = filter (λ ix, idx_name ix ≠ "users_username_key")
        (filter (λ ix, idx_name ix ≠ "users_email_idx") (indexes db))
      ++ [mkIndex "users_email_username_key" "users" ["email"; "username"] true;
          mkIndex "users_username_organizationId_key" "users"
                  ["username"; "organizationId"] true].
Proof.
  unfold organizations_migration.
  intros (d1 & H1 & (d2 & H2 & (d3 & H3 & (d4 & H4 & (d5 & H5 & (d6 & H6
            & (d7 & H7 & (d8 & H8 & Hend)%run_cons_inv)%run_cons_inv)%run_cons_inv
            )%run_cons_inv)%run_cons_inv)%run_cons_inv)%run_cons_inv)%run_cons_inv.
  injection Hend as <-.
  apply exec_drop_index_inv in H1 as (_ & C1 & I1).
  apply exec_drop_index_inv in H2 as (Hhas & C2 & I2).
  apply exec_add_column_inv in H3 as (C3 & I3).
  apply exec_add_column_inv in H4 as (C4 & I4).
  apply exec_create_unique_index_inv in H5 as (_ & C5 & I5).
  apply exec_create_unique_index_inv in H6 as (_ & C6 & I6).
  apply exec_add_foreign_key_inv in H7 as (C7 & I7).
  apply exec_add_foreign_key_inv in H8 as (C8 & I8).
  split_and!.
  - unfold has_index in Hhas |- *. rewrite I1 in Hhas.
    apply existsb_exists in Hhas as (ix & Hin & Hn). apply existsb_exists.
    exists ix. split; [|done].
    apply list_elem_of_In. apply list_elem_of_In in Hin.
    by apply list_elem_of_filter in Hin as [_ ?].
  - rewrite C8, C7, C6, C5, C4, C3, C2, C1, <- List.app_assoc. done.
  - rewrite I8, I7, I6, I5, I4, I3, I2, I1, <- List.app_assoc. done.
Qed.

Lemma unique_ok_pair (cols : list string) (r1 r2 : Row) :
  unique_ok cols [r1; r2] = negb (conflict cols r1 r2).
Proof. simpl. by rewrite !andb_true_r. Qed.

Lemma conflict_username_organizationId (r1 r2 : Row) :
  r1 !! "organizationId" ≠ r2 !! "organizationId" →
  conflict ["username"; "organizationId"] r1 r2 = false.
Proof.
  intros Hne. unfold conflict. simpl.
  destruct (r1 !! "username") as [u1|]; [|done].
  destruct (r1 !! "organizationId") as [o1|]; [|done].
  apply bool_decide_eq_false.
  destruct (r2 !! "username") as [u2|]; [|done].
  destruct (r2 !! "organizationId") as [o2|]; [|done].
  intros [= -> ->]. done.
Qed.

Lemma conflict_email_username (r1 r2 : Row) :
  r1 !! "email" ≠ r2 !! "email" →
  conflict ["email"; "username"] r1 r2 = false.
Proof.
  intros Hne. unfold conflict. simpl.
  destruct (r1 !! "email") as [e1|]; [|done].
  destruct (r1 !! "username") as [u1|]; [|done].
  apply bool_decide_eq_false.
  destruct (r2 !! "email") as [e2|]; [|done].
  destruct (r2 !! "username") as [u2|]; [|done].
  intros [= -> ->]. done.
Qed.

Lemma conflict_username (r1 r2 : Row) :
  is_Some (r1 !! "username") → r1 !! "username" = r2 !! "username" →
  conflict ["username"] r1 r2 = true.
Proof.
  intros [u Hu] Heq. unfold conflict. simpl. rewrite <- Heq, Hu.
  by apply bool_decide_eq_true.
Qed.

(** ** The scenarios, run *)

Example delete_acme_run :
  adminDeleteHandler never_fails delete_acme acme_world
  = (Resolved (mkResult true "Organization Acme deleted."), acme_deleted).
Proof. by vm_compute. Qed.

Example delete_acme_rename_rejected :
  adminDeleteHandler (fails_on (UserUpdate 2 "-2")) delete_acme acme_world
  = (Rejected (CallFailed (UserUpdate 2 "-2")), acme_partial).
Proof. by vm_compute. Qed.

Example organizations_migration_run :
  run organizations_migration before_migration = Some after_migration.
Proof. by vm_compute. Qed.

Example two_alices_before : accepts before_migration "users" two_alices = false.
Proof. by vm_compute. Qed.

Example two_alices_after : accepts after_migration "users" two_alices = true.
Proof. by vm_compute. Qed.

(** * The claims *)

(** C1: when no team with the given id is flagged as an organization (the
    team is missing, or it exists without the flag), the handler rejects
    with its fixed FORBIDDEN error and the world is left as it was: no call
    is issued, the store and the registered domains are unchanged. *)
Theorem not_organization_rejected fails opts w :
  (teams (store w) !! orgId (input opts) = None
   ∨ ∃ t, teams (store w) !! orgId (input opts) = Some t ∧ isOrganization t = false) →
  adminDeleteHandler fails opts w
  = (Rejected (TRPCError "FORBIDDEN" "This team isnt a org or doesnt exist"), w).
Proof.
  intros H. apply adminDeleteHandler_not_found, team_findUnique_None.
  intros t Ht. destruct H as [H|(t' & H & Hn)]; congruence.
Qed.

Lemma not_organization_rejected_witness :
  (∃ t, teams (store acme_world) !! 7 = Some t ∧ isOrganization t = false)
  ∧ adminDeleteHandler never_fails delete_seeded acme_world
    = (Rejected (TRPCError "FORBIDDEN" "This team isnt a org or doesnt exist"),
       acme_world).
Proof.
  assert (∃ t, teams (store acme_world) !! 7 = Some t ∧ isOrganization t = false) as H.
  { exists seeded_team. split; reflexivity. }
  split; [exact H|].
  apply (not_organization_rejected never_fails delete_seeded acme_world).
  right. exact H.
Defined.

(** C2: after a successful run, every member of the organization (a
    membership row of the team, joined with its user) has as username its
    original username, or the empty string when it had none, followed by a
    hyphen and its id. *)
Theorem members_renamed fails opts w r w' (m : Membership) (row : users_row) :
  adminDeleteHandler fails opts w = (Resolved r, w') →
  m ∈ memberships (store w) →
  teamId m = orgId (input opts) →
  users (store w) !! userId m = Some row →
  users_username <$> users (store w') !! userId m
  = Some (Some (nullish_empty (users_username row) +:+ "-"
                +:+ number_to_string (userId m))).
Proof.
  intros (t & Ht & Ho & -> & ->)%adminDeleteHandler_resolved_inv Hm Hteam Hrow.
  set (us := map user (team_members (store w) (orgId (input opts)))).
  set (v := mkUser (userId m) (users_username row)).
  assert (v ∈ us) as Hv by (apply team_members_spec; by exists m, row).
  cbn [log with_store store]. rewrite store_team_delete_username.
  cbn [after_renames after_release store users].
  rewrite (rename_all_lookup_member us _ v Hv).
  - cbn [id v]. rewrite Hrow. simpl. unfold renamed. by rewrite or_empty_nullish.
  - intros v' Hv' Hid.
    apply team_members_lookup in Hv' as (r' & Hr' & Hu').
    rewrite Hid in Hr'. cbn [id v] in Hr'. rewrite Hrow in Hr'. injection Hr' as <-.
    unfold renamed. by rewrite Hid, <- Hu'.
Qed.

Lemma members_renamed_witness :
  adminDeleteHandler never_fails delete_acme acme_world
  = (Resolved (mkResult true "Organization Acme deleted."), acme_deleted)
  ∧ users (store acme_world) !! 2 = Some (mkUsersRow None None)
  ∧ users_username <$> users (store acme_deleted) !! 2 = Some (Some "-2").
Proof.
  split; [by vm_compute|]. split; [reflexivity|].
  apply (members_renamed never_fails delete_acme acme_world
           (mkResult true "Organization Acme deleted.") acme_deleted
           (mkMembership 42 2 false MEMBER) (mkUsersRow None None)).
  - by vm_compute.
  - right. left.
  - reflexivity.
  - reflexivity.
Defined.

(** C3: on an organization with a non-empty slug the handler issues the
    domain release for exactly that slug as its first call, and no other
    release among the calls that follow (the username updates and the team
    deletion); on an organization whose slug is null or empty it issues no
    release at all.  This holds for every run, resolved or rejected. *)
Theorem domain_release_once_and_first fails opts w t :
  teams (store w) !! orgId (input opts) = Some t →
  isOrganization t = true →
  (∀ s, slug t = Some s → s ≠ "" →
     ∃ rest, trace (adminDeleteHandler fails opts w).2
             = trace w ++ DeleteDomain s :: rest
             ∧ Forall (λ c, is_release c = false) rest)
  ∧ (slug t = None ∨ slug t = Some "" →
     ∃ rest, trace (adminDeleteHandler fails opts w).2 = trace w ++ rest
             ∧ Forall (λ c, is_release c = false) rest).
Proof.
  intros Ht Ho.
  destruct (adminDeleteHandler_trace fails opts w t Ht Ho) as (rest & Htr & Hrest).
  split.
  - intros s Hs Hne. exists rest. split; [|done].
    rewrite Htr. unfold release_calls. rewrite Hs.
    apply truthy_Some in Hne as ->. done.
  - intros Hs. exists rest. split; [|done].
    rewrite Htr. unfold release_calls. by destruct Hs as [->| ->].
Qed.

Lemma domain_release_once_and_first_witness :
  teams (store acme_world) !! 42 = Some acme
  ∧ isOrganization acme = true
  ∧ trace (adminDeleteHandler never_fails delete_acme acme_world).2
    = [DeleteDomain "acme"; UserUpdate 1 "alice-1"; UserUpdate 2 "-2"; TeamDelete 42]
  ∧ ∃ rest, trace (adminDeleteHandler never_fails delete_acme acme_world).2
            = trace acme_world ++ DeleteDomain "acme" :: rest
            ∧ Forall (λ c, is_release c = false) rest.
Proof.
  split; [reflexivity|]. split; [reflexivity|]. split; [by vm_compute|].
  apply (proj1 (domain_release_once_and_first never_fails delete_acme acme_world acme
                  eq_refl eq_refl) "acme"); [reflexivity|discriminate].
Defined.

(** C4: after a successful run the team row of the given id is gone from the
    store and no membership row refers to it. *)
Theorem team_and_memberships_deleted fails opts w r w' :
  adminDeleteHandler fails opts w = (Resolved r, w') →
  teams (store w') !! orgId (input opts) = None
  ∧ ∀ m, m ∈ memberships (store w') → teamId m ≠ orgId (input opts).
Proof.
  intros (t & Ht & Ho & -> & ->)%adminDeleteHandler_resolved_inv.
  cbn [log with_store store]. split.
  - apply store_team_delete_lookup.
  - apply store_team_delete_memberships.
Qed.

Lemma team_and_memberships_deleted_witness :
  adminDeleteHandler never_fails delete_acme acme_world
  = (Resolved (mkResult true "Organization Acme deleted."), acme_deleted)
  ∧ teams (store acme_deleted) !! 42 = None
  ∧ ∀ m, m ∈ memberships (store acme_deleted) → teamId m ≠ 42.
Proof.
  split; [by vm_compute|].
  apply (team_and_memberships_deleted never_fails delete_acme acme_world
           (mkResult true "Organization Acme deleted.") acme_deleted).
  by vm_compute.
Defined.

(** C5: a successful run returns [{ ok: true, message }] where the message
    is "Organization <name> deleted." with the name the organization had in
    the store; for the name "Acme" it is "Organization Acme deleted.". *)
Theorem success_result fails opts w r w' :
  adminDeleteHandler fails opts w = (Resolved r, w') →
  ∃ t, teams (store w) !! orgId (input opts) = Some t
     ∧ isOrganization t = true
     ∧ r = {| ok := true; message := "Organization " +:+ name t +:+ " deleted." |}
     ∧ (name t = "Acme" → r = {| ok := true; message := "Organization Acme deleted." |}).
Proof.
  intros (t & Ht & Ho & -> & _)%adminDeleteHandler_resolved_inv.
  exists t. split_and!; [done..|]. unfold success_message. by intros ->.
Qed.

Lemma success_result_witness :
  adminDeleteHandler never_fails delete_acme acme_world
  = (Resolved (mkResult true "Organization Acme deleted."), acme_deleted)
  ∧ ∃ t, teams (store acme_world) !! 42 = Some t
       ∧ isOrganization t = true
       ∧ mkResult true "Organization Acme deleted."
         = {| ok := true; message := "Organization " +:+ name t +:+ " deleted." |}
       ∧ (name t = "Acme" →
          mkResult true "Organization Acme deleted."
          = {| ok := true; message := "Organization Acme deleted." |}).
Proof.
  split; [by vm_compute|].
  apply (success_result never_fails delete_acme acme_world
           (mkResult true "Organization Acme deleted.") acme_deleted).
  by vm_compute.
Defined.

(** C6: the renames are issued one at a time in the order of the fetched
    member list, which is the order of the team's rows in the membership
    list.  When the domain release (if any) and the renames of the
    members [us1] have gone through and the rename of the next member [u] is
    rejected, the handler rejects with that failure; the calls issued are
    the release, the renames of [us1] and the rejected rename, in this order,
    and no team deletion; the members [us1] are renamed, every user that is
    not among [us1] (so [u] and the members after it) is unchanged, the team
    and membership tables are unchanged, and the released slug stays
    released. *)
Theorem rename_failure_leaves_partial_state fails opts w t us1 u us2 w1 w2 :
  teams (store w) !! orgId (input opts) = Some t →
  isOrganization t = true →
  map user (team_members (store w) (orgId (input opts))) = us1 ++ u :: us2 →
  release_slug fails t w = (Resolved (), w1) →
  renameUsers fails us1 w1 = (Resolved (), w2) →
  fails w2 (UserUpdate (id u) (renamed u)) = true →
  ∃ w',
    adminDeleteHandler fails opts w
    = (Rejected (CallFailed (UserUpdate (id u) (renamed u))), w')
    ∧ map id (us1 ++ u :: us2)
      = map userId (filter (λ m, teamId m = orgId (input opts)
                                 ∧ is_Some (users (store w) !! userId m))
                           (memberships (store w)))
    ∧ trace w' = trace w ++ release_calls t ++ map rename_call us1 ++ [rename_call u]
    ∧ (∀ v, v ∈ us1 →
         users_username <$> users (store w') !! id v = Some (Some (renamed v)))
    ∧ (∀ i, i ∉ map id us1 → users (store w') !! i = users (store w) !! i)
    ∧ teams (store w') = teams (store w)
    ∧ memberships (store w') = memberships (store w)
    ∧ (∀ s, slug t = Some s → s ≠ "" → s ∉ domains w').
Proof.
  intros Ht Ho Hus H1 H2 Hf.
  pose proof (release_slug_resolved _ _ _ _ H1) as Hw1.
  pose proof (renameUsers_resolved _ _ _ _ H2) as Hw2.
  assert (∀ v, v ∈ us1 ++ u :: us2 →
            ∃ r, users (store w) !! id v = Some r ∧ users_username r = username v)
    as Hmem.
  { intros v Hv. rewrite <- Hus in Hv. by apply team_members_lookup in Hv. }
  exists (log (rename_call u) w2). split_and!.
  - rewrite (adminDeleteHandler_found fails opts w t Ht Ho).
    rewrite (and_then_step _ _ _ _ _ H1), Hus. unfold and_then at 1.
    rewrite (renameUsers_fails_at fails us1 u us2 w1 w2 H2); [done| |done].
    destruct (Hmem u) as (r & Hr & _); [apply elem_of_app; right; constructor|].
    rewrite Hw1. simpl. by rewrite Hr.
  - by rewrite <- Hus, <- team_members_order, map_map.
  - rewrite Hw2, Hw1. simpl. by rewrite <- !List.app_assoc.
  - intros v Hv. rewrite Hw2, Hw1. simpl.
    rewrite (rename_all_lookup_member us1 _ v Hv).
    + destruct (Hmem v) as (r & -> & _); [apply elem_of_app; by left|]. done.
    + intros v' Hv' Hid. f_equal.
      apply (team_members_functional (store w) (orgId (input opts)));
        [rewrite Hus; apply elem_of_app; by left..|done].
  - intros i Hi. rewrite Hw2, Hw1. simpl. by apply rename_all_lookup_other.
  - by rewrite Hw2, Hw1.
  - by rewrite Hw2, Hw1.
  - intros s Hs Hne. rewrite Hw2, Hw1. simpl. unfold released. rewrite Hs.
    apply truthy_Some in Hne as ->. apply not_elem_of_difference. right.
    by apply elem_of_singleton.
Qed.

Lemma rename_failure_leaves_partial_state_witness :
  ∃ w',
    adminDeleteHandler (fails_on (UserUpdate 2 "-2")) delete_acme acme_world
    = (Rejected (CallFailed (UserUpdate 2 "-2")), w')
    ∧ map id ([mkUser 1 (Some "alice")] ++ [mkUser 2 None])
      = map userId (filter (λ m, teamId m = 42
                                 ∧ is_Some (users (store acme_world) !! userId m))
                           (memberships (store acme_world)))
    ∧ trace w' = [DeleteDomain "acme"; UserUpdate 1 "alice-1"; UserUpdate 2 "-2"]
    ∧ (∀ v, v ∈ [mkUser 1 (Some "alice")] →
         users_username <$> users (store w') !! id v = Some (Some (renamed v)))
    ∧ (∀ i, i ∉ map id [mkUser 1 (Some "alice")] →
         users (store w') !! i = users (store acme_world) !! i)
    ∧ teams (store w') = teams (store acme_world)
    ∧ memberships (store w') = memberships (store acme_world)
    ∧ (∀ s, slug acme = Some s → s ≠ "" → s ∉ domains w').
Proof.
  eapply (rename_failure_leaves_partial_state (fails_on (UserUpdate 2 "-2"))
            delete_acme acme_world acme [mkUser 1 (Some "alice")] (mkUser 2 None) []).
  - reflexivity.
  - reflexivity.
  - reflexivity.
  - vm_compute. reflexivity.
  - vm_compute. reflexivity.
  - reflexivity.
Defined.

(** C7: the handler is not idempotent.  After a run that resolved, any
    further invocation for the same id is rejected with the FORBIDDEN error
    of the missing organization, whatever the caller and whatever the
    collaborators would do. *)
Theorem second_invocation_rejected fails fails' opts opts' w r w' :
  adminDeleteHandler fails opts w = (Resolved r, w') →
  orgId (input opts') = orgId (input opts) →
  adminDeleteHandler fails' opts' w'
  = (Rejected (TRPCError "FORBIDDEN" "This team isnt a org or doesnt exist"), w').
Proof.
  intros (t & Ht & Ho & -> & ->)%adminDeleteHandler_resolved_inv Hid.
  apply adminDeleteHandler_not_found, team_findUnique_None.
  rewrite Hid. cbn [log with_store store]. intros t'.
  by rewrite store_team_delete_lookup.
Qed.

Lemma second_invocation_rejected_witness :
  adminDeleteHandler never_fails delete_acme acme_world
  = (Resolved (mkResult true "Organization Acme deleted."), acme_deleted)
  ∧ adminDeleteHandler never_fails delete_acme acme_deleted
    = (Rejected (TRPCError "FORBIDDEN" "This team isnt a org or doesnt exist"),
       acme_deleted).
Proof.
  split; [by vm_compute|].
  apply (second_invocation_rejected never_fails never_fails delete_acme delete_acme
           acme_world (mkResult true "Organization Acme deleted.") acme_deleted).
  - by vm_compute.
  - reflexivity.
Defined.

(** C8, as amended: for members with pairwise distinct, non-negative ids (as
    the ids assigned by the store are), the rewritten usernames are pairwise
    distinct. *)
Theorem renamed_usernames_distinct (us : list User) :
  Forall (λ u, (0 ≤ id u)%Z) us →
  NoDup (map id us) →
  NoDup (map renamed us).
Proof.
  induction us as [|u us IH]; intros Hpos Hnd; [constructor|].
  apply Forall_cons in Hpos as [Hu Hpos]. rewrite map_cons in Hnd.
  apply NoDup_cons in Hnd as [Hnotin Hnd].
  rewrite map_cons. apply NoDup_cons. split; [|by apply IH].
  intros (v & Heq & Hv)%list_elem_of_fmap. apply Hnotin.
  apply list_elem_of_fmap. exists v. split; [|done].
  apply renamed_inj; [done| |done].
  by apply (proj1 (Forall_forall _ _) Hpos v).
Qed.

Lemma renamed_usernames_distinct_witness :
  NoDup (map renamed [mkUser 1 (Some "alice"); mkUser 2 None; mkUser 12 (Some "alice-1")]).
Proof.
  apply (renamed_usernames_distinct
           [mkUser 1 (Some "alice"); mkUser 2 None; mkUser 12 (Some "alice-1")]).
  - repeat constructor; simpl; lia.
  - apply (bool_decide_unpack _). by vm_compute.
Defined.

(** C8 as stated fails on ids that may be negative: the minus sign of the
    numeral is read as part of the separator. *)
Lemma renamed_usernames_collide :
  NoDup (map id [mkUser (-5) (Some "a"); mkUser 5 (Some "a-")])
  ∧ ¬ NoDup (map renamed [mkUser (-5) (Some "a"); mkUser 5 (Some "a-")]).
Proof.
  split.
  - apply (bool_decide_unpack _). by vm_compute.
  - intros H. apply (bool_decide_pack _) in H. by vm_compute in H.
Qed.

(** C9: a run of the migration drops the index users_username_key (the
    unique index on the username alone), adds the nullable column
    users.organizationId and the unique indexes on (email, username) and on
    (username, organizationId), and adds no other index.  Two rows with the
    same username and different organizations are then accepted by the index
    on (username, organizationId), and by the index on (email, username) when
    their emails differ, whereas a unique index on the username alone
    rejects them. *)
Theorem migration_scopes_username_uniqueness (db db' : Database) :
  run organizations_migration db = Some db' →
  (∃ ix, ix ∈ indexes db ∧ idx_name ix = "users_username_key")
  ∧ (∀ ix, ix ∈ indexes db' → idx_name ix ≠ "users_username_key")
  ∧ mkColumn "users" "organizationId" INTEGER true ∈ columns db'
  ∧ mkIndex "users_username_organizationId_key" "users"
            ["username"; "organizationId"] true ∈ indexes db'
  ∧ mkIndex "users_email_username_key" "users" ["email"; "username"] true
    ∈ indexes db'
  ∧ (∀ ix, ix ∈ indexes db' →
       ix ∈ indexes db
       ∨ ix = mkIndex "users_email_username_key" "users" ["email"; "username"] true
       ∨ ix = mkIndex "users_username_organizationId_key" "users"
                      ["username"; "organizationId"] true)
  ∧ (∀ r1 r2 : Row,
       r1 !! "username" = r2 !! "username" →
       r1 !! "organizationId" ≠ r2 !! "organizationId" →
       unique_ok ["username"; "organizationId"] [r1; r2] = true
       ∧ (r1 !! "email" ≠ r2 !! "email" →
          unique_ok ["email"; "username"] [r1; r2] = true)
       ∧ (is_Some (r1 !! "username") → unique_ok ["username"] [r1; r2] = false)).
Proof.
  intros (Hhas & Hcols & Hidx)%organizations_migration_schema. split_and!.
  - by apply has_index_elem.
  - intros ix. rewrite Hidx, elem_of_app, list_elem_of_filter.
    intros [[Hn _]|Hin]; [done|].
    apply elem_of_cons in Hin as [->|Hin]; [done|].
    apply list_elem_of_singleton in Hin as ->. done.
  - rewrite Hcols, elem_of_app. right. right. left.
  - rewrite Hidx, elem_of_app. right. right. left.
  - rewrite Hidx, elem_of_app. right. left.
  - intros ix. rewrite Hidx, elem_of_app, !list_elem_of_filter.
    intros [(_ & _ & Hin)|Hin]; [by left|]. right.
    apply elem_of_cons in Hin as [->|Hin]; [by left|].
    apply list_elem_of_singleton in Hin as ->. by right.
  - intros r1 r2 Hu Ho. rewrite !unique_ok_pair. split_and!.
    + by rewrite conflict_username_organizationId.
    + intros He. by rewrite conflict_email_username.
    + intros Hs. by rewrite conflict_username.
Qed.

Lemma migration_scopes_username_uniqueness_witness :
  run organizations_migration before_migration = Some after_migration
  ∧ mkColumn "users" "organizationId" INTEGER true ∈ columns after_migration
  ∧ ∀ ix, ix ∈ indexes after_migration → idx_name ix ≠ "users_username_key".
Proof.
  split; [by vm_compute|].
  pose proof (migration_scopes_username_uniqueness before_migration after_migration)
    as H.
  destruct H as (_ & Hdrop & Hcol & _); [by vm_compute|]. split; [exact Hcol|exact Hdrop].
Defined.

(** C10: the session user in the context is never consulted: two invocations
    with the same input in the same world, under any two contexts, give the
    same outcome and the same final world (store, domains and calls). *)
Theorem session_user_not_consulted fails (ctx1 ctx2 : Ctx) (i : TAdminDeleteInput) w :
  adminDeleteHandler fails (mkOption ctx1 i) w
  = adminDeleteHandler fails (mkOption ctx2 i) w.
Proof. reflexivity. Qed.

(** * Further properties of the handler *)

Lemma rename_all_dom (us : list User) (m : gmap Z users_row) :
  dom (rename_all us m) = dom m.
Proof. apply set_eq. intros i. rewrite !elem_of_dom. apply rename_all_is_Some. Qed.

Lemma rename_all_lookup_organizationId (us : list User) (m : gmap Z users_row) (i : Z) :
  users_organizationId <$> rename_all us m !! i = users_organizationId <$> m !! i.
Proof.
  induction us as [|u us IH] using rev_ind; [done|].
  rewrite rename_all_snoc. destruct (decide (id u = i)) as [->|Hne].
  - rewrite lookup_alter_eq, <- option_fmap_compose, <- IH.
    by destruct (rename_all us m !! id u).
  - by rewrite lookup_alter_ne.
Qed.

Lemma not_member_not_fetched (s : Store) (tid i : Z) :
  (∀ m, m ∈ memberships s → teamId m = tid → userId m ≠ i) →
  i ∉ map id (map user (team_members s tid)).
Proof.
  intros H (u & -> & Hu)%list_elem_of_fmap.
  apply team_members_spec in Hu as (m & r & Hm & Ht & _ & ->). by apply (H m).
Qed.

(** The row of a member once all the fetched members have been renamed. *)
Lemma rename_all_member_row (s : Store) (tid : Z) (m : Membership) (row : users_row) :
  m ∈ memberships s → teamId m = tid → users s !! userId m = Some row →
  rename_all (map user (team_members s tid)) (users s) !! userId m
  = Some (mkUsersRow (Some (renamed (mkUser (userId m) (users_username row))))
                     (users_organizationId row)).
Proof.
  intros Hm Ht Hrow. set (v := mkUser (userId m) (users_username row)).
  assert (v ∈ map user (team_members s tid)) as Hv
    by (apply team_members_spec; by exists m, row).
  change (userId m) with (id v). rewrite (rename_all_lookup_member _ _ v Hv).
  - cbn [id v]. by rewrite Hrow.
  - intros v' Hv' Hid. f_equal. by apply (team_members_functional s tid).
Qed.

(** The store after any run: either a prefix of the members has been
    renamed and nothing else has changed, or all of them have been renamed
    and the team has been deleted. *)
Lemma adminDeleteHandler_store fails opts w :
  (∃ us1 us2,
      map user (team_members (store w) (orgId (input opts))) = us1 ++ us2
      ∧ (∃ e, (adminDeleteHandler fails opts w).1 = Rejected e)
      ∧ store (adminDeleteHandler fails opts w).2
        = mkStore (teams (store w)) (rename_all us1 (users (store w)))
                  (memberships (store w)))
  ∨ ((∃ r, (adminDeleteHandler fails opts w).1 = Resolved r)
     ∧ store (adminDeleteHandler fails opts w).2
       = store_team_delete (orgId (input opts))
           (mkStore (teams (store w))
                    (rename_all (map user (team_members (store w) (orgId (input opts))))
                                (users (store w)))
                    (memberships (store w)))).
Proof.
  destruct (team_findUnique (store w) (orgId (input opts))) as [o|] eqn:Hf.
  - apply team_findUnique_Some in Hf as (Ht & Ho & _).
    destruct (adminDeleteHandler_cases fails opts w _ Ht Ho)
      as [s _ _ _|us1 u us2 _ Hus _ _|_ _|_]; cbn [fst snd log with_store store].
    + left. exists [], (map user (team_members (store w) (orgId (input opts)))).
      split_and!; [done|by eexists|by destruct (store w)].
    + left. exists us1, (u :: us2). split_and!; [done|by eexists|done].
    + left. exists (map user (team_members (store w) (orgId (input opts)))), [].
      split_and!; [by rewrite app_nil_r|by eexists|done].
    + right. split; [by eexists|done].
  - rewrite (adminDeleteHandler_not_found fails opts w Hf). left.
    exists [], (map user (team_members (store w) (orgId (input opts)))).
    cbn [fst snd]. split_and!; [done|by eexists|by destruct (store w)].
Qed.

Lemma number_to_string_nonempty (n : Z) : number_to_string n ≠ "".
Proof.
  unfold number_to_string, pretty, pretty_Z. destruct n as [|p|p]; [done| |done].
  unfold pretty, pretty_positive, pretty, pretty_N. case_decide; [done|].
  rewrite pretty_N_go_step by lia. intros Heq.
  apply (f_equal String.length) in Heq. simpl in Heq.
  assert (∀ x s, (String.length s ≤ String.length (pretty_N_go x s))%nat) as Hlen.
  { intros x. induction (N.lt_wf_0 x) as [x _ IH]; intros s.
    destruct (decide (x = 0)%N) as [->|Hx]; [by rewrite pretty_N_go_0|].
    rewrite pretty_N_go_step by lia. etrans; [|apply IH; apply N.div_lt; lia].
    simpl. lia. }
  specialize (Hlen (N.pos p `div` 10)%N
                (String (pretty_N_char (N.pos p `mod` 10)) "")).
  simpl in Hlen. lia.
Qed.

(** The username written by a rename is never empty. *)
Lemma renamed_truthy (u : User) : truthy (Some (renamed u)) = true.
Proof.
  apply truthy_Some. unfold renamed. intros Heq.
  apply (f_equal (has_char "-")) in Heq. rewrite has_char_app in Heq.
  rewrite append_cons in Heq. simpl in Heq. by rewrite orb_true_r in Heq.
Qed.

(** Renaming a user whose username is already a renamed one appends the id
    once more. *)
Lemma renamed_again (i : Z) (u : User) :
  renamed (mkUser i (Some (renamed u))) = renamed u +:+ "-" +:+ number_to_string i.
Proof.
  unfold renamed at 1. cbn [username id]. unfold or_empty.
  by rewrite renamed_truthy.
Qed.

(** X1: when the organization has a non-empty slug and the domain release is
    rejected, the handler rejects with that failure; the store and the
    registered domains are as before and the release is the only call
    issued (no rename, no deletion). *)
Theorem release_failure_mutates_nothing fails opts w t s :
  teams (store w) !! orgId (input opts) = Some t →
  isOrganization t = true →
  slug t = Some s → s ≠ "" →
  fails w (DeleteDomain s) = true →
  adminDeleteHandler fails opts w
  = (Rejected (CallFailed (DeleteDomain s)),
     mkWorld (store w) (domains w) (trace w ++ [DeleteDomain s])).
Proof.
  intros Ht Ho Hs Hne Hf. rewrite (adminDeleteHandler_found fails opts w t Ht Ho).
  unfold and_then at 1. unfold release_slug. rewrite Hs.
  apply truthy_Some in Hne as ->. unfold deleteDomain. by rewrite Hf.
Qed.

Lemma release_failure_mutates_nothing_witness :
  adminDeleteHandler (fails_on (DeleteDomain "acme")) delete_acme acme_world
  = (Rejected (CallFailed (DeleteDomain "acme")),
     mkWorld acme_store {[ "acme"; "seeded" ]} [DeleteDomain "acme"]).
Proof.
  apply (release_failure_mutates_nothing (fails_on (DeleteDomain "acme"))
           delete_acme acme_world acme "acme");
    [reflexivity|reflexivity|reflexivity|discriminate|reflexivity].
Defined.

(** X2: when the release (if any) and the renames of all members have gone
    through and the team deletion is rejected, the handler rejects with that
    failure: every member keeps its new username, the team and membership
    tables are as before, the slug stays released, and the deletion is the
    last call issued. *)
Theorem delete_failure_keeps_renames fails opts w t w1 w2 :
  teams (store w) !! orgId (input opts) = Some t →
  isOrganization t = true →
  release_slug fails t w = (Resolved (), w1) →
  renameUsers fails (map user (team_members (store w) (orgId (input opts)))) w1
  = (Resolved (), w2) →
  fails w2 (TeamDelete (orgId (input opts))) = true →
  ∃ w',
    adminDeleteHandler fails opts w
    = (Rejected (CallFailed (TeamDelete (orgId (input opts)))), w')
    ∧ teams (store w') = teams (store w)
    ∧ memberships (store w') = memberships (store w)
    ∧ (∀ m row, m ∈ memberships (store w) → teamId m = orgId (input opts) →
         users (store w) !! userId m = Some row →
         users (store w') !! userId m
         = Some (mkUsersRow (Some (renamed (mkUser (userId m) (users_username row))))
                            (users_organizationId row)))
    ∧ trace w'
      = trace w ++ release_calls t
        ++ map rename_call (map user (team_members (store w) (orgId (input opts))))
        ++ [TeamDelete (orgId (input opts))]
    ∧ (∀ s, slug t = Some s → s ≠ "" → s ∉ domains w').
Proof.
  intros Ht Ho H1 H2 Hf.
  pose proof (release_slug_resolved _ _ _ _ H1) as Hw1.
  pose proof (renameUsers_resolved _ _ _ _ H2) as Hw2.
  exists (log (TeamDelete (orgId (input opts))) w2). split_and!.
  - rewrite (adminDeleteHandler_found fails opts w t Ht Ho).
    rewrite (and_then_step _ _ _ _ _ H1), (and_then_step _ _ _ _ _ H2).
    unfold and_then, prisma_team_delete. rewrite Hf.
    replace (teams (store w2) !! orgId (input opts)) with (Some t); [done|].
    by rewrite Hw2, Hw1.
  - by rewrite Hw2, Hw1.
  - by rewrite Hw2, Hw1.
  - intros m row Hm Hteam Hrow. rewrite Hw2, Hw1. simpl.
    by apply rename_all_member_row.
  - rewrite Hw2, Hw1. simpl. by rewrite <- !List.app_assoc.
  - intros s Hs Hne. rewrite Hw2, Hw1. simpl. unfold released. rewrite Hs.
    apply truthy_Some in Hne as ->. apply not_elem_of_difference. right.
    by apply elem_of_singleton.
Qed.

Lemma delete_failure_keeps_renames_witness :
  ∃ w',
    adminDeleteHandler (fails_on (TeamDelete 42)) delete_acme acme_world
    = (Rejected (CallFailed (TeamDelete 42)), w')
    ∧ teams (store w') = teams acme_store
    ∧ memberships (store w') = memberships acme_store
    ∧ (∀ m row, m ∈ memberships acme_store → teamId m = 42 →
         users acme_store !! userId m = Some row →
         users (store w') !! userId m
         = Some (mkUsersRow (Some (renamed (mkUser (userId m) (users_username row))))
                            (users_organizationId row)))
    ∧ trace w'
      = [DeleteDomain "acme"; UserUpdate 1 "alice-1"; UserUpdate 2 "-2"; TeamDelete 42]
    ∧ (∀ s, slug acme = Some s → s ≠ "" → s ∉ domains w').
Proof.
  eapply (delete_failure_keeps_renames (fails_on (TeamDelete 42))
            delete_acme acme_world acme).
  - reflexivity.
  - reflexivity.
  - vm_compute. reflexivity.
  - vm_compute. reflexivity.
  - reflexivity.
Defined.

(** X3: whatever the outcome of a run, the users table has the same rows as
    before, and the username of every user that has no membership row in the
    team is unchanged. *)
Theorem users_frame fails opts w :
  dom (users (store (adminDeleteHandler fails opts w).2)) = dom (users (store w))
  ∧ ∀ i, (∀ m, m ∈ memberships (store w) → teamId m = orgId (input opts) →
               userId m ≠ i) →
         users_username <$> users (store (adminDeleteHandler fails opts w).2) !! i
         = users_username <$> users (store w) !! i.
Proof.
  destruct (adminDeleteHandler_store fails opts w)
    as [(us1 & us2 & Hus & _ & ->)|[_ ->]].
  - cbn [users]. split; [apply rename_all_dom|].
    intros i Hi%not_member_not_fetched. rewrite rename_all_lookup_other; [done|].
    rewrite Hus, map_app in Hi. by apply not_elem_of_app in Hi as [? _].
  - split.
    + cbn [store_team_delete users]. by rewrite dom_fmap_L, rename_all_dom.
    + intros i Hi%not_member_not_fetched.
      rewrite store_team_delete_username. cbn [users].
      by rewrite rename_all_lookup_other.
Qed.

(** X4: a run that resolves has issued, after the release of the slug (when
    there is one), exactly one update per membership row of the team whose
    user exists, in the order of the membership list, and the team deletion
    as its last call; the released slug is no longer registered. *)
Theorem resolved_run_calls fails opts w r w' :
  adminDeleteHandler fails opts w = (Resolved r, w') →
  ∃ t us,
    teams (store w) !! orgId (input opts) = Some t
    ∧ map id us
      = map userId (filter (λ m, teamId m = orgId (input opts)
                                 ∧ is_Some (users (store w) !! userId m))
                           (memberships (store w)))
    ∧ trace w'
      = trace w ++ release_calls t ++ map rename_call us
        ++ [TeamDelete (orgId (input opts))]
    ∧ domains w' = released t (domains w).
Proof.
  intros (t & Ht & Ho & -> & ->)%adminDeleteHandler_resolved_inv.
  exists t, (map user (team_members (store w) (orgId (input opts)))). split_and!.
  - done.
  - by rewrite <- team_members_order, map_map.
  - simpl. by rewrite <- !List.app_assoc.
  - done.
Qed.

Lemma resolved_run_calls_witness :
  ∃ t us,
    teams (store nested_world) !! 42 = Some t
    ∧ map id us
      = map userId (filter (λ m, teamId m = 42
                                 ∧ is_Some (users (store nested_world) !! userId m))
                           (memberships (store nested_world)))
    ∧ trace (adminDeleteHandler never_fails delete_acme nested_world).2
      = trace nested_world ++ release_calls t ++ map rename_call us ++ [TeamDelete 42]
    ∧ domains (adminDeleteHandler never_fails delete_acme nested_world).2
      = released t (domains nested_world).
Proof.
  apply (resolved_run_calls never_fails delete_acme nested_world
           (mkResult true "Organization Acme deleted.")
           (adminDeleteHandler never_fails delete_acme nested_world).2).
  by vm_compute.
Defined.

Lemma child_teams_mono (ts : gmap Z Team) (S1 S2 : gset Z) :
  S1 ⊆ S2 → child_teams ts S1 ⊆ child_teams ts S2.
Proof.
  intros Hsub k. unfold child_teams. rewrite !elem_of_dom.
  intros [t [Ht Hp]%map_lookup_filter_Some]. exists t.
  apply map_lookup_filter_Some. split; [done|]. revert Hp. simpl. unfold parent_in.
  destruct (parentId t) as [p|]; [|done].
  intros Hp%bool_decide_unpack. apply bool_decide_pack. by apply Hsub.
Qed.

Lemma child_teams_spec (ts : gmap Z Team) (S : gset Z) (k : Z) :
  k ∈ child_teams ts S ↔ ∃ t p, ts !! k = Some t ∧ parentId t = Some p ∧ p ∈ S.
Proof.
  unfold child_teams. rewrite elem_of_dom. split.
  - intros [t [Ht Hp]%map_lookup_filter_Some]. simpl in Hp. unfold parent_in in Hp.
    destruct (parentId t) as [p|] eqn:Hpar; [|done].
    apply bool_decide_unpack in Hp. by exists t, p.
  - intros (t & p & Ht & Hpar & Hp). exists t. apply map_lookup_filter_Some.
    split; [done|]. simpl. unfold parent_in. rewrite Hpar. by apply bool_decide_pack.
Qed.

(** Every set that holds the deleted team and is closed under the parent
    link holds all the teams removed with it. *)
Lemma deleted_teams_least (ts : gmap Z Team) (tid : Z) (S : gset Z) :
  tid ∈ S → child_teams ts S ⊆ S → deleted_teams ts tid ⊆ S.
Proof.
  intros Htid Hclosed. unfold deleted_teams.
  assert (∀ n X, X ⊆ S → cascade n ts X ⊆ S) as H.
  { induction n as [|n IH]; intros X HX; [done|]. simpl. apply IH.
    apply union_least; [done|]. etrans; [by apply child_teams_mono|done]. }
  apply H. by apply singleton_subseteq_l.
Qed.

(** X5: after a run that resolved, no user is affiliated with the deleted
    organization (nor with a team deleted with it), and every user whose
    affiliation was null or another team keeps it. *)
Theorem affiliation_cleared fails opts w r w' :
  adminDeleteHandler fails opts w = (Resolved r, w') →
  (∀ i row, users (store w') !! i = Some row →
            users_organizationId row ≠ Some (orgId (input opts)))
  ∧ (∀ i row, users (store w) !! i = Some row →
              (∀ o, users_organizationId row = Some o →
                    o ∉ deleted_teams (teams (store w)) (orgId (input opts))) →
              users_organizationId <$> users (store w') !! i
              = Some (users_organizationId row)).
Proof.
  intros (t & Ht & Ho & -> & ->)%adminDeleteHandler_resolved_inv.
  cbn [log with_store store store_team_delete users after_renames after_release teams].
  set (D := deleted_teams (teams (store w)) (orgId (input opts))).
  set (m := rename_all _ _). split.
  - intros i row. rewrite lookup_fmap.
    destruct (m !! i) as [r0|]; [|done]. intros [= <-].
    unfold clear_organization. destruct (users_organizationId r0) as [o|] eqn:Hr0; [|by rewrite Hr0].
    case_bool_decide as Hin; [done|]. rewrite Hr0. intros [= ->].
    apply Hin, deleted_teams_self.
  - intros i row Hrow Hkeep. rewrite lookup_fmap.
    pose proof (rename_all_lookup_organizationId
                  (map user (team_members (store w) (orgId (input opts))))
                  (users (store w)) i) as Horg.
    fold m in Horg. rewrite Hrow in Horg. destruct (m !! i) as [r0|]; [|done].
    simpl in *. injection Horg as Horg. f_equal. unfold clear_organization.
    rewrite Horg. destruct (users_organizationId row) as [o|]; [|by rewrite Horg].
    rewrite bool_decide_eq_false_2 by (by apply Hkeep). by rewrite Horg.
Qed.

Lemma affiliation_cleared_witness :
  (∀ i row, users (store (adminDeleteHandler never_fails delete_acme nested_world).2) !! i
            = Some row →
            users_organizationId row ≠ Some 42)
  ∧ users_organizationId
      <$> users (store (adminDeleteHandler never_fails delete_acme nested_world).2) !! 3
    = Some (Some 8).
Proof.
  destruct (affiliation_cleared never_fails delete_acme nested_world
              (mkResult true "Organization Acme deleted.")
              (adminDeleteHandler never_fails delete_acme nested_world).2)
    as [Hclear Hkeep]; [by vm_compute|].
  split; [exact Hclear|].
  apply (Hkeep 3 (mkUsersRow (Some "alice-1") (Some 8))); [reflexivity|].
  intros o [= <-]. apply (bool_decide_unpack _). by vm_compute.
Defined.

(** X6: the team deletion cascades along the parent link.  After a run that
    resolved, the teams removed are exactly the least set that holds the
    organization and every team whose parent is in the set: the teams
    directly below the organization are gone, a team outside this set is
    unchanged, and no team that remains has a removed parent. *)
Theorem team_deletion_cascades fails opts w r w' :
  adminDeleteHandler fails opts w = (Resolved r, w') →
  (∀ k, k ∈ deleted_teams (teams (store w)) (orgId (input opts)) →
        teams (store w') !! k = None)
  ∧ (∀ k, k ∉ deleted_teams (teams (store w)) (orgId (input opts)) →
          teams (store w') !! k = teams (store w) !! k)
  ∧ (∀ k c, teams (store w) !! k = Some c →
            parentId c = Some (orgId (input opts)) →
            teams (store w') !! k = None)
  ∧ (∀ k c p, teams (store w') !! k = Some c → parentId c = Some p →
              is_Some (teams (store w) !! p) → is_Some (teams (store w') !! p))
  ∧ (∀ S : gset Z, orgId (input opts) ∈ S →
        (∀ k c p, teams (store w) !! k = Some c → parentId c = Some p → p ∈ S → k ∈ S) →
        deleted_teams (teams (store w)) (orgId (input opts)) ⊆ S).
Proof.
  intros (t & Ht & Ho & -> & ->)%adminDeleteHandler_resolved_inv.
  cbn [log with_store store store_team_delete users after_renames after_release teams].
  set (ts := teams (store w)). set (D := deleted_teams ts (orgId (input opts))).
  assert (∀ k, k ∈ D → filter (λ kv : Z * Team, kv.1 ∉ D) ts !! k = None) as Hgone.
  { intros k Hk. apply map_lookup_filter_None. right. intros c _ Hn. by apply Hn. }
  assert (∀ k, k ∉ D → filter (λ kv : Z * Team, kv.1 ∉ D) ts !! k = ts !! k) as Hkept.
  { intros k Hk. destruct (ts !! k) as [c|] eqn:Hc.
    - by apply map_lookup_filter_Some.
    - apply map_lookup_filter_None. by left. }
  split_and!.
  - done.
  - done.
  - intros k c Hk Hp. apply Hgone. apply deleted_teams_closed, child_teams_spec.
    exists c, (orgId (input opts)). split_and!; [done..|]. apply deleted_teams_self.
  - intros k c p [Hk Hn]%map_lookup_filter_Some Hp Hsome. simpl in Hn.
    rewrite Hkept; [done|]. intros Hin. apply Hn.
    apply deleted_teams_closed, child_teams_spec. by exists c, p.
  - intros S Hin Hclosed. apply deleted_teams_least; [done|].
    intros k (c & p & Hk & Hp & HpS)%child_teams_spec. by apply (Hclosed k c p).
Qed.

Lemma team_deletion_cascades_witness :
  teams (store (adminDeleteHandler never_fails delete_acme nested_world).2) !! 43 = None
  ∧ teams (store (adminDeleteHandler never_fails delete_acme nested_world).2) !! 44 = None
  ∧ teams (store (adminDeleteHandler never_fails delete_acme nested_world).2) !! 8
    = teams (store nested_world) !! 8.
Proof.
  destruct (team_deletion_cascades never_fails delete_acme nested_world
              (mkResult true "Organization Acme deleted.")
              (adminDeleteHandler never_fails delete_acme nested_world).2)
    as (Hgone & Hkept & Hchild & _); [by vm_compute|].
  split_and!.
  - apply (Hchild 43 (mkTeam "Sales" (Some "sales") None (Some 42))); reflexivity.
  - apply Hgone. apply (bool_decide_unpack _). by vm_compute.
  - apply Hkept. apply (bool_decide_unpack _). by vm_compute.
Defined.

Lemma adminDeleteHandler_rejected_inv fails opts w e w' :
  adminDeleteHandler fails opts w = (Rejected e, w') →
  teams (store w') = teams (store w) ∧ memberships (store w') = memberships (store w).
Proof.
  intros Hrun. destruct (adminDeleteHandler_store fails opts w)
    as [(us1 & us2 & _ & _ & Hst)|[[r Hr] _]]; rewrite Hrun in *; [|done].
  simpl in Hst. by rewrite Hst.
Qed.

(** The username of a member after a run that resolved. *)
Lemma adminDeleteHandler_resolved_username fails opts w r w' m row :
  adminDeleteHandler fails opts w = (Resolved r, w') →
  m ∈ memberships (store w) → teamId m = orgId (input opts) →
  users (store w) !! userId m = Some row →
  users_username <$> users (store w') !! userId m
  = Some (Some (renamed (mkUser (userId m) (users_username row)))).
Proof.
  intros (t & Ht & Ho & -> & ->)%adminDeleteHandler_resolved_inv Hm Hteam Hrow.
  cbn [log with_store store]. rewrite store_team_delete_username.
  cbn [after_renames after_release store users].
  by rewrite (rename_all_member_row _ _ m row).
Qed.

(** X7: a retry does not recognise the members it has already renamed.  When
    a first run is rejected after it has renamed a member, and a second run
    for the same organization resolves, that member's username carries the
    id suffix twice. *)
Theorem retry_renames_again fails fails' opts w e w1 r w2 m row :
  adminDeleteHandler fails opts w = (Rejected e, w1) →
  adminDeleteHandler fails' opts w1 = (Resolved r, w2) →
  m ∈ memberships (store w) →
  teamId m = orgId (input opts) →
  users (store w) !! userId m = Some row →
  users_username <$> users (store w1) !! userId m
  = Some (Some (renamed (mkUser (userId m) (users_username row)))) →
  users_username <$> users (store w2) !! userId m
  = Some (Some (renamed (mkUser (userId m) (users_username row))
                +:+ "-" +:+ number_to_string (userId m))).
Proof.
  intros Hrun1 Hrun2 Hm Hteam Hrow Hrenamed.
  apply adminDeleteHandler_rejected_inv in Hrun1 as [_ Hms].
  destruct (users (store w1) !! userId m) as [row1|] eqn:Hrow1; [|done].
  injection Hrenamed as Hrenamed.
  rewrite (adminDeleteHandler_resolved_username fails' opts w1 r w2 m row1 Hrun2);
    [|by rewrite Hms|done|done].
  by rewrite Hrenamed, renamed_again.
Qed.

Lemma retry_renames_again_witness :
  adminDeleteHandler (fails_on (UserUpdate 2 "-2")) delete_acme acme_world
  = (Rejected (CallFailed (UserUpdate 2 "-2")), acme_partial)
  ∧ users_username
      <$> users (store (adminDeleteHandler never_fails delete_acme acme_partial).2) !! 1
    = Some (Some "alice-1-1").
Proof.
  split; [by vm_compute|].
  apply (retry_renames_again (fails_on (UserUpdate 2 "-2")) never_fails delete_acme
           acme_world (CallFailed (UserUpdate 2 "-2")) acme_partial
           (mkResult true "Organization Acme deleted.")
           (adminDeleteHandler never_fails delete_acme acme_partial).2
           (mkMembership 42 1 true OWNER) (mkUsersRow (Some "alice") (Some 42))).
  - by vm_compute.
  - by vm_compute.
  - left.
  - reflexivity.
  - reflexivity.
  - reflexivity.
Defined.

(** X8: the handler does not look at the usernames of users outside the
    organization.  When such a user is already called what a member is
    renamed to, a run that resolves leaves the two with the same
    username. *)
Theorem rename_may_duplicate_outsider fails opts w r w' m row j rowj :
  adminDeleteHandler fails opts w = (Resolved r, w') →
  m ∈ memberships (store w) →
  teamId m = orgId (input opts) →
  users (store w) !! userId m = Some row →
  (∀ m', m' ∈ memberships (store w) → teamId m' = orgId (input opts) → userId m' ≠ j) →
  users (store w) !! j = Some rowj →
  users_username rowj = Some (renamed (mkUser (userId m) (users_username row))) →
  j ≠ userId m
  ∧ users_username <$> users (store w') !! j
    = users_username <$> users (store w') !! userId m
  ∧ users_username <$> users (store w') !! j = Some (users_username rowj).
Proof.
  intros Hrun Hm Hteam Hrow Hout Hj Hname.
  rewrite (adminDeleteHandler_resolved_username fails opts w r w' m row Hrun Hm Hteam Hrow).
  apply adminDeleteHandler_resolved_inv in Hrun as (t & Ht & Ho & -> & ->).
  cbn [log with_store store]. rewrite store_team_delete_username.
  cbn [after_renames after_release store users].
  rewrite rename_all_lookup_other by (by apply not_member_not_fetched).
  rewrite Hj. simpl. rewrite Hname. split_and!; [|done..].
  intros ->. by apply (Hout m).
Qed.

Lemma rename_may_duplicate_outsider_witness :
  3 ≠ 1
  ∧ users_username
      <$> users (store (adminDeleteHandler never_fails delete_acme nested_world).2) !! 3
    = users_username
        <$> users (store (adminDeleteHandler never_fails delete_acme nested_world).2) !! 1
  ∧ users_username
      <$> users (store (adminDeleteHandler never_fails delete_acme nested_world).2) !! 3
    = Some (Some "alice-1").
Proof.
  apply (rename_may_duplicate_outsider never_fails delete_acme nested_world
           (mkResult true "Organization Acme deleted.")
           (adminDeleteHandler never_fails delete_acme nested_world).2
           (mkMembership 42 1 true OWNER) (mkUsersRow (Some "alice") (Some 42))
           3 (mkUsersRow (Some "alice-1") (Some 8))).
  - by vm_compute.
  - left.
  - reflexivity.
  - reflexivity.
  - intros m' Hm' Ht Hu. revert Hm'. simpl. rewrite !elem_of_cons, elem_of_nil.
    intros [->|[->|[->|[->|[]]]]]; simpl in *; discriminate.
  - reflexivity.
  - reflexivity.
Defined.

(** * Further properties of the migration *)

Lemma existsb_filter_name (n n' : string) (l : list Index) :
  n ≠ n' →
  existsb (λ ix, bool_decide (idx_name ix = n)) (filter (λ ix, idx_name ix ≠ n') l)
  = existsb (λ ix, bool_decide (idx_name ix = n)) l.
Proof.
  intros Hne. induction l as [|ix l IH]; [done|].
  rewrite filter_cons. case_decide as Hix; simpl; [by rewrite IH|].
  rewrite IH. rewrite bool_decide_eq_false_2; [done|]. congruence.
Qed.

Lemma existsb_filter_self (n : string) (l : list Index) :
  existsb (λ ix, bool_decide (idx_name ix = n)) (filter (λ ix, idx_name ix ≠ n) l)
  = false.
Proof.
  induction l as [|ix l IH]; [done|].
  rewrite filter_cons. case_decide as Hix; simpl; [|done].
  by rewrite IH, bool_decide_eq_false_2.
Qed.

Lemma index_key_delete_notin (c : string) (cols : list string) (r : Row) :
  c ∉ cols → index_key cols (delete c r) = index_key cols r.
Proof.
  induction cols as [|c' cols IH]; [done|].
  intros [Hne Hn]%not_elem_of_cons. simpl.
  rewrite lookup_delete_ne by done. by rewrite IH.
Qed.

Lemma index_key_delete_in (c : string) (cols : list string) (r : Row) :
  c ∈ cols → index_key cols (delete c r) = None.
Proof.
  induction cols as [|c' cols IH]; [by intros ?%elem_of_nil|].
  intros [->|Hin]%elem_of_cons; simpl.
  - by rewrite lookup_delete_eq.
  - rewrite IH by done. by destruct (delete c r !! c').
Qed.

Lemma forallb_fmap_ext {A B} (f : B → bool) (g : A → B) (h : A → bool) (l : list A) :
  (∀ x, f (g x) = h x) → forallb f (g <$> l) = forallb h l.
Proof.
  intros Hfg. induction l as [|x l IH]; [done|].
  rewrite fmap_cons. simpl. by rewrite Hfg, IH.
Qed.

Lemma unique_ok_delete_notin (c : string) (cols : list string) (rs : list Row) :
  c ∉ cols → unique_ok cols (delete c <$> rs) = unique_ok cols rs.
Proof.
  intros Hc. induction rs as [|r rs IH]; [done|].
  rewrite fmap_cons. simpl. rewrite IH. f_equal.
  apply forallb_fmap_ext. intros r'. unfold conflict.
  by rewrite !index_key_delete_notin.
Qed.

(** Rows whose indexed column is NULL never conflict. *)
Lemma unique_ok_delete_in (c : string) (cols : list string) (rs : list Row) :
  c ∈ cols → unique_ok cols (delete c <$> rs) = true.
Proof.
  intros Hc. induction rs as [|r rs IH]; [done|].
  rewrite fmap_cons. simpl. rewrite IH, andb_true_r.
  unfold conflict. rewrite index_key_delete_in by done.
  by apply forallb_forall.
Qed.

Lemma references_ok_delete (db : Database) (c rt rc : string) (rs : list Row) :
  references_ok db c rt rc (delete c <$> rs) = true.
Proof.
  unfold references_ok. apply forallb_forall. intros r Hr.
  apply list_elem_of_In, list_elem_of_fmap in Hr as (r0 & -> & _).
  by rewrite lookup_delete_eq.
Qed.

Lemma table_rows_alter_eq (f : list Row → list Row) (t : string)
    (c : list Column) (ix : list Index) (fk : list ForeignKey)
    (rs : gmap string (list Row)) :
  f [] = [] →
  table_rows (mkDatabase c ix fk (alter f t rs)) t
  = f (table_rows (mkDatabase c ix fk rs) t).
Proof.
  intros Hf. unfold table_rows. simpl. rewrite lookup_alter_eq.
  by destruct (rs !! t).
Qed.

Lemma table_rows_alter_ne (f : list Row → list Row) (t t' : string)
    (c : list Column) (ix : list Index) (fk : list ForeignKey)
    (rs : gmap string (list Row)) :
  t ≠ t' →
  table_rows (mkDatabase c ix fk (alter f t rs)) t'
  = table_rows (mkDatabase c ix fk rs) t'.
Proof. intros Hne. unfold table_rows. simpl. by rewrite lookup_alter_ne. Qed.

(** The rows of the two altered tables after the two columns are added. *)
Lemma table_rows_migrated_users (db : Database) :
  table_rows (migrated db) "users" = delete "organizationId" <$> table_rows db "users".
Proof.
  unfold migrated. rewrite table_rows_alter_eq by done.
  rewrite table_rows_alter_ne by done. by destruct db.
Qed.

Lemma table_rows_migrated_Team (db : Database) :
  table_rows (migrated db) "Team" = delete "parentId" <$> table_rows db "Team".
Proof.
  unfold migrated, table_rows. simpl.
  rewrite lookup_alter_ne by done. rewrite lookup_alter_eq.
  by destruct (rows db !! "Team").
Qed.

Lemma default_fmap_rows (f : Row → Row) (o : option (list Row)) :
  default [] (fmap (M:=list) f <$> o) = fmap (M:=list) f (default [] o).
Proof. by destruct o. Qed.

Ltac decide_closed :=
  repeat match goal with
         | |- context [bool_decide ?P] =>
             let b := eval vm_compute in (bool_decide P) in
             change (bool_decide P) with b
         end.

Ltac mig_step :=
  cbn [andb negb run exec forallb];
  unfold has_index, has_column, has_foreign_key, table_rows;
  cbn [columns indexes foreign_keys rows];
  rewrite ?existsb_app; cbn [existsb idx_name col_table col_name fk_name];
  decide_closed; cbn [andb orb negb];
  rewrite ?orb_false_r, ?andb_true_r, ?orb_true_r;
  rewrite ?existsb_filter_name by done;
  rewrite ?lookup_alter_eq, ?lookup_alter_ne by done;
  rewrite ?lookup_alter_eq, ?default_fmap_rows.

(** The run of the statements, in closed form. *)
Lemma run_organizations_migration (db : Database) :
  run organizations_migration db
  = if migration_applies db then Some (migrated db) else None.
Proof.
  unfold organizations_migration, migration_applies, migrated.
  destruct db as [cs ixs fks rs].
  mig_step.
  destruct (existsb (index_named "users_email_idx") ixs) eqn:E1; [|done]. mig_step.
  destruct (existsb (index_named "users_username_key") ixs) eqn:E2; [|done]. mig_step.
  destruct (existsb (column_named "Team" "parentId") cs) eqn:E3; [done|]. mig_step.
  destruct (existsb (column_named "users" "organizationId") cs) eqn:E4; [done|].
  mig_step.
  destruct (existsb (index_named "users_email_username_key") ixs) eqn:E5; [done|].
  mig_step.
  destruct (existsb (column_named "users" "email") cs) eqn:E6; [|done]. mig_step.
  destruct (existsb (column_named "users" "username") cs) eqn:E7; [|done]. mig_step.
  rewrite unique_ok_delete_notin by (apply (bool_decide_unpack _); by vm_compute).
  destruct (unique_ok ["email"; "username"] (default [] (rs !! "users"))) eqn:E8;
    [|done].
  mig_step.
  destruct (existsb (index_named "users_username_organizationId_key") ixs) eqn:E9;
    [done|].
  mig_step.
  rewrite E7, unique_ok_delete_in by (apply (bool_decide_unpack _); by vm_compute).
  mig_step.
  destruct (existsb (foreign_key_named "users_organizationId_fkey") fks) eqn:E10;
    [done|].
  mig_step. rewrite references_ok_delete.
  destruct (existsb (column_named "Team" "id") cs) eqn:E11; [|done]. mig_step.
  rewrite references_ok_delete.
  destruct (existsb (foreign_key_named "Team_parentId_fkey") fks) eqn:E12; [done|].
  mig_step. rewrite E11. by rewrite <- !List.app_assoc.
Qed.

Lemma migration_applies_spec (db : Database) :
  migration_applies db = true ↔
  has_index db "users_email_idx" = true
  ∧ has_index db "users_username_key" = true
  ∧ has_column db "Team" "parentId" = false
  ∧ has_column db "users" "organizationId" = false
  ∧ has_index db "users_email_username_key" = false
  ∧ has_column db "users" "email" = true
  ∧ has_column db "users" "username" = true
  ∧ unique_ok ["email"; "username"] (table_rows db "users") = true
  ∧ has_index db "users_username_organizationId_key" = false
  ∧ has_foreign_key db "users_organizationId_fkey" = false
  ∧ has_column db "Team" "id" = true
  ∧ has_foreign_key db "Team_parentId_fkey" = false.
Proof.
  unfold migration_applies. rewrite !andb_true_iff, !negb_true_iff. tauto.
Qed.

Lemma run_organizations_migration_Some (db db' : Database) :
  run organizations_migration db = Some db' ↔
  migration_applies db = true ∧ db' = migrated db.
Proof.
  rewrite run_organizations_migration. destruct (migration_applies db).
  - split; [by intros [= <-]|by intros [_ ->]].
  - split; [done|by intros [? _]].
Qed.

Lemma run_organizations_migration_None (db : Database) :
  migration_applies db = false → run organizations_migration db = None.
Proof. rewrite run_organizations_migration. by intros ->. Qed.

Lemma migration_applies_false (db : Database) :
  ¬ migration_applies db = true → migration_applies db = false.
Proof. by destruct (migration_applies db). Qed.

(** X9: the migration cannot be applied twice: on the database that a run
    of it leaves, a second run fails (the index it drops first is gone). *)
Theorem migration_not_rerunnable (db db' : Database) :
  run organizations_migration db = Some db' →
  run organizations_migration db' = None.
Proof.
  intros [_ ->]%run_organizations_migration_Some.
  apply run_organizations_migration_None, migration_applies_false.
  intros (Hidx & _)%migration_applies_spec. revert Hidx.
  unfold has_index, migrated. cbn [indexes]. rewrite existsb_app.
  rewrite existsb_filter_name, existsb_filter_self by done. done.
Qed.

Lemma migration_not_rerunnable_witness :
  run organizations_migration before_migration = Some after_migration
  ∧ run organizations_migration after_migration = None.
Proof.
  split; [by vm_compute|].
  apply (migration_not_rerunnable before_migration after_migration). by vm_compute.
Defined.

(** X10: the migration fails, and applies nothing, when the schema is not
    the one it expects: when one of the two indexes it drops is missing, or
    when one of the two columns it adds is already there. *)
Theorem migration_fails_on_unexpected_schema (db : Database) :
  has_index db "users_email_idx" = false
  ∨ has_index db "users_username_key" = false
  ∨ has_column db "Team" "parentId" = true
  ∨ has_column db "users" "organizationId" = true →
  run organizations_migration db = None.
Proof.
  intros H. apply run_organizations_migration_None, migration_applies_false.
  intros (H1 & H2 & H3 & H4 & _)%migration_applies_spec.
  destruct H as [H|[H|[H|H]]]; congruence.
Qed.

Lemma migration_fails_on_unexpected_schema_witness :
  has_column after_migration "users" "organizationId" = true
  ∧ run organizations_migration after_migration = None.
Proof.
  split; [reflexivity|].
  apply (migration_fails_on_unexpected_schema after_migration).
  right. right. right. reflexivity.
Defined.

(** X11: the migration fails when two rows of users have the same non-null
    email and username (the first warning of migration.sql). *)
Theorem migration_fails_on_duplicates (db : Database) :
  unique_ok ["email"; "username"] (table_rows db "users") = false →
  run organizations_migration db = None.
Proof.
  intros H. apply run_organizations_migration_None, migration_applies_false.
  intros (_ & _ & _ & _ & _ & _ & _ & H8 & _)%migration_applies_spec. congruence.
Qed.

Lemma migration_fails_on_duplicates_witness :
  unique_ok ["email"; "username"] (table_rows before_with_duplicates "users") = false
  ∧ run organizations_migration before_with_duplicates = None.
Proof.
  split; [by vm_compute|].
  apply (migration_fails_on_duplicates before_with_duplicates). by vm_compute.
Defined.


(** X13: the migration keeps the stored data.  The tables other than users
    and Team are untouched; users and Team keep their rows, in order, with
    every value they had, and the new column (organizationId, parentId) is
    NULL in each of them. *)
Theorem migration_keeps_data (db db' : Database) :
  run organizations_migration db = Some db' →
  (∀ t, t ≠ "users" → t ≠ "Team" → rows db' !! t = rows db !! t)
  ∧ length (table_rows db' "users") = length (table_rows db "users")
  ∧ length (table_rows db' "Team") = length (table_rows db "Team")
  ∧ (∀ i r', table_rows db' "users" !! i = Some r' →
       r' !! "organizationId" = None
       ∧ ∃ r, table_rows db "users" !! i = Some r
              ∧ ∀ c, c ≠ "organizationId" → r' !! c = r !! c)
  ∧ (∀ i r', table_rows db' "Team" !! i = Some r' →
       r' !! "parentId" = None
       ∧ ∃ r, table_rows db "Team" !! i = Some r
              ∧ ∀ c, c ≠ "parentId" → r' !! c = r !! c).
Proof.
  intros [_ ->]%run_organizations_migration_Some.
  rewrite table_rows_migrated_users, table_rows_migrated_Team. split_and!.
  - intros t Hu Ht. unfold migrated. cbn [rows]. by rewrite !lookup_alter_ne.
  - apply length_fmap.
  - apply length_fmap.
  - intros i r' Hr'. apply list_lookup_fmap_Some in Hr' as (r & -> & Hr).
    split; [apply lookup_delete_eq|]. exists r. split; [done|].
    intros c Hc. by apply lookup_delete_ne.
  - intros i r' Hr'. apply list_lookup_fmap_Some in Hr' as (r & -> & Hr).
    split; [apply lookup_delete_eq|]. exists r. split; [done|].
    intros c Hc. by apply lookup_delete_ne.
Qed.

Lemma migration_keeps_data_witness :
  table_rows after_migration "users" !! 0%nat
  = Some (user_row 1 "alice" "alice@example.com")
  ∧ user_row 1 "alice" "alice@example.com" !! "organizationId" = None.
Proof.
  split; [reflexivity|].
  destruct (migration_keeps_data before_migration after_migration)
    as (_ & _ & _ & Husers & _); [by vm_compute|].
  apply (Husers 0%nat (user_row 1 "alice" "alice@example.com")). reflexivity.
Defined.

Lemma conflict_spec (cols : list string) (r1 r2 : Row) :
  conflict cols r1 r2 = true ↔
  Forall (λ c, is_Some (r1 !! c) ∧ r1 !! c = r2 !! c) cols.
Proof.
  unfold conflict.
  assert (∀ k, index_key cols r1 = Some k →
               (index_key cols r2 = Some k ↔
                Forall (λ c, is_Some (r1 !! c) ∧ r1 !! c = r2 !! c) cols)) as Hsome.
  { induction cols as [|c cols IH]; intros k; cbn [index_key].
    - intros [= <-]. split; [constructor|done].
    - rewrite Forall_cons.
      destruct (r1 !! c) as [v1|] eqn:H1; [|done].
      destruct (index_key cols r1) as [k1|] eqn:Hk1; [|done]. intros [= <-].
      specialize (IH k1 eq_refl).
      destruct (r2 !! c) as [v2|] eqn:H2.
      + destruct (index_key cols r2) as [k2|] eqn:Hk2.
        * split.
          -- intros Heq. injection Heq as -> ->.
             split; [by split; [eexists|]|]. by apply IH.
          -- intros [[_ Heq] Hall]. injection Heq as ->.
             apply IH in Hall. by injection Hall as ->.
        * split; [done|]. intros [_ Hall]. by apply IH in Hall.
      + split; [done|]. by intros [[_ ?] _]. }
  destruct (index_key cols r1) as [k|] eqn:Hk.
  - rewrite bool_decide_eq_true. by apply Hsome.
  - split; [done|]. intros Hall. exfalso. clear Hsome. revert Hk.
    induction Hall as [|c cols [[v Hv] _] _ IH]; cbn [index_key]; [done|].
    rewrite Hv. destruct (index_key cols r1); [done|]. by intros _; apply IH.
Qed.

(** A unique index on more columns accepts at least as much. *)
Lemma unique_ok_mono (cols1 cols2 : list string) (rs : list Row) :
  (∀ c, c ∈ cols1 → c ∈ cols2) →
  unique_ok cols1 rs = true → unique_ok cols2 rs = true.
Proof.
  intros Hsub. induction rs as [|r rs IH]; [done|]. simpl.
  rewrite !andb_true_iff, !forallb_forall. intros [Hr Hrs]. split; [|by apply IH].
  intros r' Hr'. specialize (Hr r' Hr'). apply negb_true_iff in Hr.
  apply negb_true_iff, not_true_is_false. intros Hc. apply conflict_spec in Hc.
  assert (conflict cols1 r r' = true) as Hc1; [|congruence].
  apply conflict_spec, Forall_forall. intros c Hin.
  by apply (proj1 (Forall_forall _ _) Hc c), Hsub.
Qed.

(** X14: the migration only relaxes the uniqueness constraints.  When the
    index users_username_key it drops is the unique index on the username
    alone, every content of a table that the unique indexes accepted before
    the migration is accepted after it. *)
Theorem migration_relaxes_uniqueness (db db' : Database) (t : string) (rs : list Row) :
  run organizations_migration db = Some db' →
  mkIndex "users_username_key" "users" ["username"] true ∈ indexes db →
  accepts db t rs = true →
  accepts db' t rs = true.
Proof.
  intros [_ ->]%run_organizations_migration_Some Hkey Hacc.
  unfold accepts in *. rewrite forallb_forall in Hacc. apply forallb_forall.
  intros ix Hix. apply list_elem_of_In in Hix. unfold migrated in Hix. cbn [indexes] in Hix.
  apply elem_of_app in Hix as [Hix|Hix].
  - apply Hacc, list_elem_of_In.
    by apply list_elem_of_filter in Hix as [_ [_ ?]%list_elem_of_filter].
  - assert (t = "users" → unique_ok ["username"] rs = true) as Huser.
    { intros ->. specialize (Hacc _ (proj1 (list_elem_of_In _ _) Hkey)).
      by rewrite bool_decide_eq_true_2 in Hacc. }
    destruct (decide (t = "users")) as [Ht|Ht].
    + specialize (Huser Ht).
      apply elem_of_cons in Hix as [->|Hix]; cbn [idx_unique idx_table idx_columns negb orb].
      * rewrite (unique_ok_mono ["username"] ["email"; "username"]); [by rewrite orb_true_r|..|done].
        intros c ->%list_elem_of_singleton. right. left.
      * apply list_elem_of_singleton in Hix as ->. cbn [idx_unique idx_table idx_columns negb orb].
        rewrite (unique_ok_mono ["username"] ["username"; "organizationId"]);
          [by rewrite orb_true_r|..|done].
        intros c ->%list_elem_of_singleton. left.
    + apply elem_of_cons in Hix as [->|Hix].
      * cbn [idx_unique idx_table negb orb]. by rewrite bool_decide_eq_false_2.
      * apply list_elem_of_singleton in Hix as ->.
        cbn [idx_unique idx_table negb orb]. by rewrite bool_decide_eq_false_2.
Qed.

Lemma migration_relaxes_uniqueness_witness :
  accepts before_migration "users" (table_rows before_migration "users") = true
  ∧ accepts after_migration "users" (table_rows before_migration "users") = true.
Proof.
  split; [by vm_compute|].
  apply (migration_relaxes_uniqueness before_migration after_migration).
  - by vm_compute.
  - right. right. left.
  - by vm_compute.
Defined.

(** * Properties of the signup tests *)

Lemma starts_with_refl (s : string) : starts_with s s = true.
Proof. induction s as [|a s IH]; [done|]. simpl. by rewrite bool_decide_eq_true_2. Qed.

Lemma includes_refl (s : string) : includes s s = true.
Proof. destruct s; simpl; [done|]. by rewrite bool_decide_eq_true_2, starts_with_refl. Qed.

(** X15: the expectations of the tests "Username is taken" and "Email is
    taken" hold whatever the text of the alert: the received text is
    compared with itself, and the expected message is only checked to be
    defined. *)
Theorem taken_expectations_always_hold (alertMessageInner : string) :
  taken_expectations alertMessageInner = true.
Proof. unfold taken_expectations, toContain. by rewrite includes_refl. Qed.

(** An alert without text passes, although it does not contain the
    message. *)
Example empty_alert_passes :
  taken_expectations "" = true ∧ toContain "" alertMessage = false.
Proof. by vm_compute. Qed.

Lemma time_decomposition (t : Z) :
  t = MakeDate (Day t)
        (MakeTime (HourFromTime t) (MinFromTime t) (SecFromTime t) (msFromTime t)).
Proof.
  unfold MakeDate, MakeTime, Day, HourFromTime, MinFromTime, SecFromTime, msFromTime,
    msPerDay, msPerHour, msPerMinute, msPerSecond.
  Z.div_mod_to_equations. lia.
Qed.

Lemma HourFromTime_range (t : Z) : (0 ≤ HourFromTime t < 24)%Z.
Proof. unfold HourFromTime. apply Z.mod_pos_bound. lia. Qed.

(** X16: the token of the test "Signup with token prefils correct fields"
    does not expire one week after its creation: [setHours(168)] counts the
    168 hours from the start of the local day, so the expiry is
    [168 - h] hours after the creation, where [h] is the local hour of the
    creation: between 145 and 168 hours, and one week only during the
    first hour of the day. *)
Theorem token_expires_within_week (tza now : Z) :
  (Z.abs now ≤ 8640000000000000 - 168 * msPerHour)%Z →
  ∃ e, token_expires tza now = Some e
       ∧ e = (now + (168 - HourFromTime (now + tza)) * msPerHour)%Z
       ∧ (now + 145 * msPerHour ≤ e ≤ now + 168 * msPerHour)%Z
       ∧ (e = now + 7 * msPerDay ↔ HourFromTime (now + tza) = 0)%Z.
Proof.
  intros Hrange. pose proof (HourFromTime_range (now + tza)) as Hh.
  pose proof (time_decomposition (now + tza)) as Hdec.
  set (e := (now + (168 - HourFromTime (now + tza)) * msPerHour)%Z).
  assert (MakeDate (Day (now + tza))
            (MakeTime 168 (MinFromTime (now + tza)) (SecFromTime (now + tza))
                      (msFromTime (now + tza))) - tza = e)%Z as He.
  { unfold e. unfold MakeDate, MakeTime in *. lia. }
  exists e. unfold token_expires, setHours. cbn zeta. rewrite He.
  split; [|split; [|split]].
  - unfold TimeClip. rewrite decide_True; [done|].
    unfold e, msPerHour in *. lia.
  - done.
  - unfold e, msPerHour. lia.
  - unfold e, msPerHour, msPerDay. lia.
Qed.

Lemma token_expires_within_week_witness :
  ∃ e, token_expires 0 1700000000000 = Some e
       ∧ e = (1700000000000 + (168 - HourFromTime (1700000000000 + 0)) * msPerHour)%Z
       ∧ (1700000000000 + 145 * msPerHour ≤ e ≤ 1700000000000 + 168 * msPerHour)%Z
       ∧ (e = 1700000000000 + 7 * msPerDay ↔ HourFromTime (1700000000000 + 0) = 0)%Z.
Proof.
  apply (token_expires_within_week 0 1700000000000). by vm_compute.
Defined.
